(** * Verification of the monox / wurk command-line orchestration code

  A shallow embedding of the command-level code of the repository:
  package-manager detection, the top-level CLI action ([run.ts]),
  the filesystem publisher, the dependency-check command and the
  version command.  Every definition follows one source function;
  external effects (file system, git, registry, child processes, the
  [semver] package) are explicit inputs. *)

From Stdlib Require Import ZArith NArith String Ascii List Bool Lia.
From stdpp Require Import gmap strings list.
Import ListNotations.

Set Warnings "-register-all".

Open Scope string_scope.
Open Scope list_scope.

(** ** JavaScript values that the code compares loosely *)

Module Js.

Inductive value :=
| VUndefined
| VNull
| VBool (b : bool)
| VString (s : string).

(** [v != null]: loose inequality; only [null] and [undefined] are
    loosely equal to [null]. *)
Definition loose_ne_null (v : value) : bool :=
  match v with
  | VUndefined | VNull => false
  | _ => true
  end.

(** The outcome of a function call: a returned value or a thrown
    [Error] with its message. *)
Inductive completion (A : Type) :=
| Return (a : A)
| Throw (message : string).
Arguments Return {A} a.
Arguments Throw {A} message.

Definition bind {A B} (c : completion A) (k : A -> completion B) : completion B :=
  match c with
  | Return a => k a
  | Throw m => Throw m
  end.

End Js.

Notation "'let*' x ':=' c 'in' k" := (Js.bind c (fun x => k))
  (at level 10, x name, c at level 100, k at level 200).

(** ** Package-manager detection (pm package, [tryCreatePackageManager]) *)

Module Pm.
Import Js.

Inductive PackageManager :=
| Npm (rootDir : string)
| Pnpm (rootDir : string)
| Yarn (rootDir : string).

(** What [tryCreatePackageManager] reads of a directory: the parsed
    [package.json] ([None] when [readFile] rejects), and whether
    [access] succeeds on the two lock files. *)
Record Config := {
  packageManager : option string;   (* .at('packageManager').as('string') *)
  workspaces_exists : bool          (* .at('workspaces').exists() *)
}.

Record Dir := {
  dir : string;
  package_json : option Config;
  yarn_lock : bool;
  pnpm_lock : bool
}.

(** [/^[^@]+/u.exec(s)]: the longest prefix without ['@'], which must
    not be empty. *)
Fixpoint take_not_at (s : string) : string :=
  match s with
  | EmptyString => EmptyString
  | String c s' => if Ascii.eqb c "@"%char then EmptyString
                   else String c (take_not_at s')
  end.

Definition exec_name (s : string) : option string :=
  match take_not_at s with
  | EmptyString => None
  | n => Some n
  end.

Definition tryCreatePackageManager (d : Dir) : completion (option PackageManager) :=
  match package_json d with
  | None => Throw "ENOENT"
  | Some config =>
    match packageManager config with
    | Some pm =>
      match exec_name pm with
      | None => Throw "invalid package manager"
      | Some name =>
        if String.eqb name "npm" then Return (Some (Npm (dir d)))
        else if String.eqb name "pnpm" then Return (Some (Pnpm (dir d)))
        else if String.eqb name "yarn" then Return (Some (Yarn (dir d)))
        else Throw "unsupported package manager"
      end
    | None =>
      if workspaces_exists config then
        let yarnLockExists := VBool (yarn_lock d) in
        if loose_ne_null yarnLockExists then Return (Some (Yarn (dir d)))
        else Return (Some (Npm (dir d)))
      else
        let pnpmLockExists := pnpm_lock d in
        if pnpmLockExists then Return (Some (Pnpm (dir d)))
        else Return None
    end
  end.

End Pm.

(** ** The top-level CLI action ([core/cli/src/run.ts], [mainAsync]) *)

Module Run.
Import Js.

(** Strings whose characters matter ([WURK_RUNNING_COMMANDS], command
    names) are lists of code points: the separator regular expression
    carries the [u] flag, so matching and index advance go by code
    point. *)
Definition jsstr := list N.

Definition of_string (s : string) : jsstr :=
  map N_of_ascii (list_ascii_of_string s).

Definition comma : N := 44%N.

(** The class [\s]: ECMAScript WhiteSpace and LineTerminator. *)
Definition is_space (c : N) : bool :=
  ((9 <=? c) && (c <=? 13) || (c =? 32) || (c =? 160) || (c =? 5760)
   || (8192 <=? c) && (c <=? 8202) || (c =? 8232) || (c =? 8233)
   || (c =? 8239) || (c =? 8287) || (c =? 12288) || (c =? 65279))%N.

Fixpoint skip_space (s : jsstr) : jsstr :=
  match s with
  | c :: s' => if is_space c then skip_space s' else s
  | [] => []
  end.

(** A sticky match of [/\s*,\s*/u] at the head of [s]; the result is
    what follows the match.  Both stars are greedy, and white space is
    never a comma, so there is nothing to backtrack over. *)
Definition match_separator (s : jsstr) : option jsstr :=
  match skip_space s with
  | c :: r => if (c =? comma)%N then Some (skip_space r) else None
  | [] => None
  end.

(** The loop of [RegExp.prototype[Symbol.split]]: [piece] is
    [S.slice(p, q)], [s] is [S.slice(q)].  A match is never empty, so
    the [e = p] case does not arise.  [fuel] bounds the iterations and
    [split] supplies the length of the input, which is enough. *)
Fixpoint split_loop (fuel : nat) (piece s : jsstr) : list jsstr :=
  match s with
  | [] => [piece]
  | c :: s' =>
    match fuel with
    | O => [piece ++ s]
    | S fuel' =>
      match match_separator s with
      | Some rest => piece :: split_loop fuel' [] rest
      | None => split_loop fuel' (piece ++ [c]) s'
      end
    end
  end.

Definition split (s : jsstr) : list jsstr := split_loop (length s) [] s.

(** [Array.prototype.join(',')] *)
Fixpoint join (l : list jsstr) : jsstr :=
  match l with
  | [] => []
  | [x] => x
  | x :: l' => x ++ comma :: join l'
  end.

(** JavaScript numbers as far as they reach the action: a finite
    double is [mantissa * 2 ^ exponent], and JSON text such as [1e999]
    reads as an infinity.  The action hands a number on as it is: it
    computes with none and tests none. *)
Inductive number :=
| Finite (mantissa exponent : Z)
| Infinity (negative : bool).

(** Values read back from the environment through [JsonAccessor.parse]. *)
Inductive json :=
| JNull
| JBoolean (b : bool)
| JNumber (n : number)
| JString (s : string)
| JArray (l : list json).

Definition as_boolean (v : option json) (default : bool) : bool :=
  match v with Some (JBoolean b) => b | _ => default end.

(** [.as('number')]: any number, an integer or not. *)
Definition as_number (v : option json) : option number :=
  match v with Some (JNumber n) => Some n | _ => None end.

Definition as_array (v : option json) (default : list json) : list json :=
  match v with Some (JArray l) => l | _ => default end.

(** [.filter((value): value is string => typeof value === 'string')] *)
Definition filter_strings (l : list json) : list string :=
  flat_map (fun v => match v with JString s => [s] | _ => [] end) l.

(** What the text [JSON.stringify(n)] denotes: an infinity is printed
    as [null]. *)
Definition stringify_number (n : number) : json :=
  match n with
  | Finite _ _ => JNumber n
  | Infinity _ => JNull
  end.

Record Options := {
  expressions : option (list string);
  includeRootWorkspace : option bool;
  parallel : option bool;
  stream : option bool;
  concurrency : option number;
  script : option string;
  scriptArgs : list string
}.

(** The environment variables of the action.  The five settings hold
    JSON text, read with [JsonAccessor.parse] and written with
    [JSON.stringify]: such a variable is described by the document its
    text denotes, [None] when it is not set or holds no JSON.
    [WURK_RUNNING_COMMANDS] is read as it is. *)
Record Env := {
  WURK_WORKSPACE_EXPRESSIONS : option json;
  WURK_INCLUDE_ROOT_WORKSPACE : option json;
  WURK_PARALLEL : option json;
  WURK_STREAM : option json;
  WURK_CONCURRENCY : option json;
  WURK_RUNNING_COMMANDS : option jsstr
}.

Inductive IterationMethod :=
| forEachParallel
| forEachStream
| forEachSequential
| forEachIndependent.

(** A manifest as [fs.readJson] delivers it: of the document read, the
    action asks for the [name]. *)
Record Manifest := {
  name_field : option string
}.

(** [workspaceConfig.at('name')] is a [JsonAccessor] again, over the
    member or over nothing: the accessors are the objects on which the
    code calls [at], [as] and [exists]. *)
Inductive Accessor :=
| AccessorOf (member : option string).

Definition at_name (config : Manifest) : Accessor := AccessorOf (name_field config).

(** [!accessor]: an accessor is an object, and every object is truthy. *)
Definition not_ (a : Accessor) : bool := false.

(** The options object handed to [new WorkspaceCollection]. *)
Record CollectionOptions := {
  co_workspaces : list (string * Manifest);
  co_includeRootWorkspace : bool;
  co_concurrency : option number;
  co_defaultIterationMethod : IterationMethod
}.

(** What the action calls and does not define: the package manager and
    the file system, the workspace collection ([@wurk/workspace]) and
    the command plugins.  Each call returns or throws; [Some m] is the
    message of the error it throws. *)
Record World := {
  (* pm.getWorkspaces() with the fs.readJson of each directory *)
  getWorkspaces : completion (list (string * Manifest));
  new_WorkspaceCollection : CollectionOptions -> option string;
  select : list string -> option string;
  init : option string;              (* commandPlugins.forEach(... init(workspaces)) *)
  (* the names under scripts of the root manifest whose value is a string *)
  root_scripts : list string;
  spawnPackageScript : string -> list string -> option string
}.

(** What the action has done when it returns or throws: the calls made
    so far, with their arguments, and the environment as it stands. *)
Record Ran := {
  constructed : option CollectionOptions;     (* new WorkspaceCollection(...) *)
  select_argument : option (list string);     (* workspaces.select(...) *)
  env_after : Env;
  spawned_script : option (string * list string)
}.

Inductive Outcome :=
| Exit (code : Z)                        (* process.exit(code) *)
| Thrown (message : string) (r : Ran)    (* the error, and what was done before it *)
| Finished (r : Ran).

(** [const running = env.WURK_RUNNING_COMMANDS?.split(/\s*,\s*/u) ?? []] *)
Definition running_of (e : Env) : list jsstr :=
  match WURK_RUNNING_COMMANDS e with
  | Some s => split s
  | None => []
  end.

(** [running.includes(commandName)]; [commandName] is [undefined] when
    no command was given, and no element of [running] is. *)
Definition includes (running : list jsstr) (commandName : option jsstr) : bool :=
  match commandName with
  | Some n => bool_decide (n ∈ running)
  | None => false
  end.

(** [join] prints an [undefined] element as the empty string. *)
Definition name_text (commandName : option jsstr) : jsstr :=
  match commandName with Some n => n | None => [] end.

(** The callback of [workspaceDirs.map]: the guard tests the accessor,
    not the name. *)
Fixpoint workspaceEntries (dirs : list (string * Manifest))
  : completion (list (string * Manifest)) :=
  match dirs with
  | [] => Return []
  | (workspaceDir, workspaceConfig) :: rest =>
    if not_ (at_name workspaceConfig) then Throw "workspace has no name"
    else
      let* es := workspaceEntries rest in
      Return ((workspaceDir, workspaceConfig) :: es)
  end.

(** The destructuring defaults of the action: an option that was not
    given falls back on the environment. *)
Definition expressions_of (options : Options) (env : Env) : list string :=
  match expressions options with
  | Some es => es
  | None => filter_strings (as_array (WURK_WORKSPACE_EXPRESSIONS env) [])
  end.

Definition flag_of (option_value : option bool) (env_value : option json) : bool :=
  match option_value with
  | Some b => b
  | None => as_boolean env_value false
  end.

Definition concurrency_of (options : Options) (env : Env) : option number :=
  match concurrency options with
  | Some n => Some n
  | None => as_number (WURK_CONCURRENCY env)
  end.

(** [if (script)]: a string counts unless it is empty. *)
Definition script_given (options : Options) : option string :=
  match script options with
  | Some sc => if String.eqb sc "" then None else Some sc
  | None => None
  end.

Definition quoted (s : string) : string :=
  String (ascii_of_nat 34) (String.append s (String (ascii_of_nat 34) EmptyString)).

Definition with_running (running_commands : jsstr) (env : Env) : Env :=
  {| WURK_WORKSPACE_EXPRESSIONS := WURK_WORKSPACE_EXPRESSIONS env;
     WURK_INCLUDE_ROOT_WORKSPACE := WURK_INCLUDE_ROOT_WORKSPACE env;
     WURK_PARALLEL := WURK_PARALLEL env;
     WURK_STREAM := WURK_STREAM env;
     WURK_CONCURRENCY := WURK_CONCURRENCY env;
     WURK_RUNNING_COMMANDS := Some running_commands |}.

(** The argument of [new WorkspaceCollection], from the destructured
    options. *)
Definition collection (options : Options) (env : Env)
    (workspaceEntries : list (string * Manifest)) : CollectionOptions :=
  let parallel := flag_of (parallel options) (WURK_PARALLEL env) in
  let stream := flag_of (stream options) (WURK_STREAM env) in
  {| co_workspaces := workspaceEntries;
     co_includeRootWorkspace :=
       flag_of (includeRootWorkspace options) (WURK_INCLUDE_ROOT_WORKSPACE env);
     co_concurrency := concurrency_of options env;
     co_defaultIterationMethod :=
       if parallel then forEachParallel
       else if stream then forEachStream
       else forEachSequential |}.

(** [expressions.length ? expressions : '**'] *)
Definition selected (options : Options) (env : Env) : list string :=
  let expressions := expressions_of options env in
  if (length expressions =? 0)%nat then ["**"] else expressions.

(** The five assignments that hand the settings down to nested
    invocations. *)
Definition settings (options : Options) (env env1 : Env) : Env :=
  {| WURK_WORKSPACE_EXPRESSIONS :=
       Some (JArray (map JString (expressions_of options env)));
     WURK_INCLUDE_ROOT_WORKSPACE :=
       Some (JBoolean (flag_of (includeRootWorkspace options)
                         (WURK_INCLUDE_ROOT_WORKSPACE env)));
     WURK_PARALLEL := Some (JBoolean (flag_of (parallel options) (WURK_PARALLEL env)));
     WURK_STREAM := Some (JBoolean (flag_of (stream options) (WURK_STREAM env)));
     WURK_CONCURRENCY := option_map stringify_number (concurrency_of options env);
     WURK_RUNNING_COMMANDS := WURK_RUNNING_COMMANDS env1 |}.

(** The [.action] callback of the root CLI.  The log prefixes given to
    the workspaces between the construction and [select] are left out. *)
Definition action (world : World) (options : Options) (commandName : option jsstr)
    (env : Env) : Outcome :=
  let running := running_of env in
  if includes running commandName then Exit 0
  else
    let env1 := with_running (join (running ++ [name_text commandName])) env in
    match (let* dirs := getWorkspaces world in workspaceEntries dirs) with
    | Throw m =>
      Thrown m {| constructed := None; select_argument := None;
                  env_after := env1; spawned_script := None |}
    | Return entries =>
      let workspaces := collection options env entries in
      match new_WorkspaceCollection world workspaces with
      | Some m =>
        Thrown m {| constructed := Some workspaces; select_argument := None;
                    env_after := env1; spawned_script := None |}
      | None =>
        let selecting :=
          {| constructed := Some workspaces;
             select_argument := Some (selected options env);
             env_after := env1; spawned_script := None |} in
        match select world (selected options env) with
        | Some m => Thrown m selecting
        | None =>
          match init world with
          | Some m => Thrown m selecting
          | None =>
            let env' := settings options env env1 in
            let ready :=
              {| constructed := Some workspaces;
                 select_argument := Some (selected options env);
                 env_after := env'; spawned_script := None |} in
            match script_given options with
            | None => Finished ready
            | Some sc =>
              if bool_decide (sc ∈ root_scripts world) then
                let spawning :=
                  {| constructed := Some workspaces;
                     select_argument := Some (selected options env);
                     env_after := env';
                     spawned_script := Some (sc, scriptArgs options) |} in
                match spawnPackageScript world sc (scriptArgs options) with
                | Some m => Thrown m spawning
                | None => Finished spawning
                end
              else
                Thrown (String.append (quoted sc)
                          " is not a command or root package script") ready
            end
          end
        end
      end
    end.

(** What an invocation that does not exit has done. *)
Definition ran (o : Outcome) : option Ran :=
  match o with
  | Exit _ => None
  | Thrown _ r => Some r
  | Finished r => Some r
  end.


(** The collection it built, and the expressions it selected with. *)
Definition collection_of (o : Outcome) : option CollectionOptions :=
  match ran o with Some r => constructed r | None => None end.

Definition selection_of (o : Outcome) : option (list string) :=
  match ran o with Some r => select_argument r | None => None end.

(** A nested invocation inherits the environment its parent left.
    [nested world env names] runs the action for each command of a
    chain of nested invocations, each started by the body of the
    command before it, and reports per command whether it went past the
    guard.  A body only runs when the action has returned. *)
Fixpoint nested (world : World) (env : Env) (names : list jsstr)
  : list (jsstr * bool) :=
  match names with
  | [] => []
  | n :: rest =>
    match action world
            {| expressions := None; includeRootWorkspace := None;
               parallel := None; stream := None; concurrency := None;
               script := None; scriptArgs := [] |} (Some n) env with
    | Exit _ => [(n, false)]
    | Thrown _ _ => [(n, true)]
    | Finished r => (n, true) :: nested world (env_after r) rest
    end
  end.

(** [rstrip] drops trailing white space, as [skip_space] drops leading
    white space. *)
Fixpoint rstrip (x : jsstr) : jsstr :=
  match x with
  | [] => []
  | c :: x' =>
    match rstrip x' with
    | [] => if is_space c then [] else [c]
    | r => c :: r
    end
  end.

(** [split] at the fuel it supplies, and the shape of its result on a
    joined list: [trimmed piece x l] is the split of [x] followed by
    the elements of [l] behind a comma each, with [piece] already read.
    Elements lose the white space next to a comma. *)
Definition sl (piece s : jsstr) : list jsstr := split_loop (length s) piece s.

Definition sep_join (l : list jsstr) : jsstr :=
  flat_map (fun y => comma :: y) l.

Fixpoint trimmed (piece x : jsstr) (l : list jsstr) : list jsstr :=
  match l with
  | [] => [piece ++ x]
  | y :: l' => (piece ++ rstrip x) :: trimmed [] (skip_space y) l'
  end.

(** Command names as the plugins declare them: no comma, and no white
    space at either end. *)
Definition no_comma (x : jsstr) : Prop := Forall (fun c => c <> comma) x.

Definition plain (x : jsstr) : Prop :=
  no_comma x /\ skip_space x = x /\ rstrip x = x.


End Run.

(** ** The workspace collection ([@wurk/workspace])

    The collection class is not part of the code verified here; its
    selector, closure expander and iteration are written after the
    specification of the core (sections 3, 4.2 to 4.4). *)

Module Workspaces.

Inductive StatusValue := pending | success | failure | skipped.

Record Status := {
  status_value : StatusValue;
  status_detail : option string
}.

(** The part of the manifest accessor the commands look at. *)
Record Config := {
  cfg_version : option string;     (* config.at('version').as('string') *)
  cfg_isModified : bool            (* config.isModified *)
}.

Record Workspace := {
  name : string;
  dir : string;                    (* repository-relative directory *)
  isRoot : bool;
  isPrivate : bool;
  keywords : list string;
  version : option string;
  config : Config;
  isSelected : bool;
  status : Status
}.

Definition with_isSelected (b : bool) (w : Workspace) : Workspace :=
  {| name := name w; dir := dir w; isRoot := isRoot w; isPrivate := isPrivate w;
     keywords := keywords w; version := version w; config := config w;
     isSelected := b; status := status w |}.

Definition with_status (s : Status) (w : Workspace) : Workspace :=
  {| name := name w; dir := dir w; isRoot := isRoot w; isPrivate := isPrivate w;
     keywords := keywords w; version := version w; config := config w;
     isSelected := isSelected w; status := s |}.

Definition with_config (c : Config) (w : Workspace) : Workspace :=
  {| name := name w; dir := dir w; isRoot := isRoot w; isPrivate := isPrivate w;
     keywords := keywords w; version := version w; config := c;
     isSelected := isSelected w; status := status w |}.

(** Modelled from the spec: the transition rule of the status tracker
    (section 3): [pending] is the only state that is not terminal. *)
Definition is_terminal (v : StatusValue) : bool :=
  match v with
  | pending => false
  | _ => true
  end.

(** Modelled from the spec: [status.set(value, detail?)] and
    [status.setDetail(detail)] of the status tracker (section 3: a value
    with an optional free-text detail).  A status in a terminal state is
    not overwritten: the specification has such a call do nothing or be
    an implementation error, and here it does nothing.  A call without
    a detail keeps the detail already there. *)
Definition status_set (v : StatusValue) (d : option string) (w : Workspace) : Workspace :=
  if is_terminal (status_value (status w)) then w
  else
    with_status {| status_value := v;
                   status_detail := match d with
                                    | Some _ => d
                                    | None => status_detail (status w)
                                    end |} w.

Definition status_setDetail (d : string) (w : Workspace) : Workspace :=
  if is_terminal (status_value (status w)) then w
  else
    with_status {| status_value := status_value (status w);
                   status_detail := Some d |} w.

Record Collection := {
  all : list Workspace;                 (* root and sub-packages, registration order *)
  links : list (string * string);       (* local edges: (dependent, dependency) *)
  includeRootWorkspace : bool;
  dependencies_enabled : bool;
  dependents_enabled : bool
}.

Definition with_all (ws : list Workspace) (c : Collection) : Collection :=
  {| all := ws; links := links c; includeRootWorkspace := includeRootWorkspace c;
     dependencies_enabled := dependencies_enabled c;
     dependents_enabled := dependents_enabled c |}.

Section Selector.

(** The glob matcher, the token that stands for private workspaces and
    the test for malformed expressions belong to the absent class. *)
Variable glob : string -> string -> bool.
Variable private_token : string.
Variable malformed : string -> bool.

(** Modelled from the spec: the match rules of section 4.2. *)
Definition matches (expression : string) (w : Workspace) : bool :=
  String.eqb expression (name w)
  || bool_decide (expression ∈ keywords w)
  || glob expression (dir w)
  || (String.eqb expression private_token && isPrivate w)
  || (String.eqb expression "**" && negb (isRoot w)).

(** Modelled from the spec: the root is a match target only under
    [includeRootWorkspace]. *)
Definition match_target (c : Collection) (w : Workspace) : bool :=
  negb (isRoot w) || includeRootWorkspace c.

(** Modelled from the spec: [select(expressions)] of section 4.2 and
    the SelectionError of section 7: the selection is replaced by the
    union of the matches; one malformed expression fails the call and
    nothing is applied.  The wildcard is an expression of the language. *)
Definition select (expressions : list string) (c : Collection)
  : Js.completion Collection :=
  if existsb (fun e => negb (String.eqb e "**") && malformed e) expressions
  then Js.Throw "SelectionError"
  else Js.Return
    (with_all
       (map (fun w => with_isSelected
                        (match_target c w
                         && existsb (fun e => matches e w) expressions) w)
            (all c)) c).

End Selector.

(** Modelled from the spec: the closure expander of section 4.3.  The
    anchor set is the set of [isSelected] flags; a closure flag adds the
    workspaces reachable from the anchor along its edge direction.  A
    path that repeats no edge has at most [length edges] edges, so that
    many rounds reach the whole closure, cycles included. *)
Definition anchor (c : Collection) : list string :=
  map name (List.filter (fun w => isSelected w) (all c)).

Definition expand (edges : list (string * string)) (sel : list string) : list string :=
  sel ++ map snd (List.filter (fun e => bool_decide (fst e ∈ sel)) edges).

Definition closure (edges : list (string * string)) (sel : list string) : list string :=
  Nat.iter (length edges) (expand edges) sel.

Definition reverse (edges : list (string * string)) : list (string * string) :=
  map (fun e => (snd e, fst e)) edges.

(** Modelled from the spec: [includeDependencies(enabled)] and
    [includeDependents(enabled)] of section 4.3, absent with the class;
    called without argument they enable. *)
Definition includeDependencies (enabled : option bool) (c : Collection) : Collection :=
  {| all := all c; links := links c; includeRootWorkspace := includeRootWorkspace c;
     dependencies_enabled := match enabled with Some b => b | None => true end;
     dependents_enabled := dependents_enabled c |}.

Definition includeDependents (enabled : option bool) (c : Collection) : Collection :=
  {| all := all c; links := links c; includeRootWorkspace := includeRootWorkspace c;
     dependencies_enabled := dependencies_enabled c;
     dependents_enabled := match enabled with Some b => b | None => true end |}.

(** Modelled from the spec: the currently selected subset that the
    scheduler of section 4.4 visits, which is absent with the class:
    the anchor and the enabled closures. *)
Definition is_iterated (c : Collection) (w : Workspace) : bool :=
  isSelected w
  || (dependencies_enabled c
      && bool_decide (name w ∈ closure (links c) (anchor c)))
  || (dependents_enabled c
      && bool_decide (name w ∈ closure (reverse (links c)) (anchor c))).


(** Modelled from the spec: what an action leaves of its workspace
    under the scheduler's error policy (sections 4.4 and 7): a thrown
    error sets the status to [failure] with the message. *)
Definition settle {A} (r : Workspace * A * option string) : Workspace :=
  match snd r with
  | Some m => status_set failure (Some m) (fst (fst r))
  | None => fst (fst r)
  end.

(** Modelled from the spec: the scheduler of section 4.4, as far as the
    state it leaves is concerned.  The action runs once for each
    workspace selected when [forEach] is called; an action that throws
    has its workspace marked [failure] with the message and stops no
    other action; the outcome is the aggregate failure flag.  The
    callback gets the workspace and the caller's own state [A] and
    returns both, with the error if it threw.  The three disciplines
    differ in timing only, so one visit in registration order stands
    for the default [forEach]. *)
Fixpoint forEach_loop {A} (callback : Workspace -> A -> Workspace * A * option string)
    (visit : Workspace -> bool) (ws : list Workspace) (acc : A)
  : list Workspace * A * bool :=
  match ws with
  | [] => ([], acc, false)
  | w :: rest =>
    if visit w then
      let r := callback w acc in
      let '(rest', acc'', failed) := forEach_loop callback visit rest (snd (fst r)) in
      (settle r :: rest', acc'', bool_decide (is_Some (snd r)) || failed)
    else
      let '(rest', acc', failed) := forEach_loop callback visit rest acc in
      (w :: rest', acc', failed)
  end.

Definition forEach {A} (callback : Workspace -> A -> Workspace * A * option string)
    (c : Collection) (acc : A) : Collection * A * bool :=
  let '(ws, acc', failed) := forEach_loop callback (is_iterated c) (all c) acc in
  (with_all ws c, acc', failed).

End Workspaces.

(** ** The version command ([commands/version/src/command.ts]) *)

Module Version.
Import Workspaces.

Section Action.

(** The strategy modules ([auto], [bump], [literal], [promote]),
    [sync] and the writers are not part of the code verified here.  A
    strategy and [sync] rewrite the manifest of the workspace they are
    given and report changes; a writer may throw. *)
Variable Change : Type.
Variable each : option (Workspace -> Config * list Change).
Variable sync : Workspace -> Config * list Change.
Variable isDirty : Workspace -> bool.      (* (await getGit().catch(() => null))?.getIsDirty() *)
Variable writeConfig : Workspace -> option string.
Variable writeChangelog : Workspace -> list Change -> option string.
Variable changelog : bool.

Definition Changes := list (string * list Change).

(** First [forEach]: collect the changes. *)
Definition collect (w : Workspace) (changes : Changes)
  : Workspace * Changes * option string :=
  if negb (isPrivate w) && isSelected w then
    let '(w1, c1) :=
      match each with
      | Some f => let '(cfg, cs) := f w in (with_config cfg w, cs)
      | None => (w, [])
      end in
    let '(cfg2, c2) := sync w1 in
    (with_config cfg2 w1, (name w, c1 ++ c2) :: changes, None)
  else
    let '(cfg2, c2) := sync w in
    (with_config cfg2 w, (name w, c2) :: changes, None).

(** Second [forEach]: the selection follows the modifications. *)
Definition reselect (w : Workspace) (u : unit) : Workspace * unit * option string :=
  if isDirty w then (w, u, Some "versioning requires a clean git repository")
  else if cfg_isModified (config w) then (with_isSelected true w, u, None)
  else (with_isSelected false (status_set skipped (Some "no modifications") w), u, None).

Definition lookup_changes (n : string) (changes : Changes) : list Change :=
  match find (fun e => String.eqb (fst e) n) changes with
  | Some e => snd e
  | None => []
  end.

Definition arrow (old new : option string) : string :=
  String.append (match old with Some v => v | None => "undefined" end)
    (String.append " -> " (match new with Some v => v | None => "undefined" end)).

(** Third [forEach]: write.  The state is the list of manifests
    written so far, latest first. *)
Definition write (changes : Changes) (w : Workspace) (written : list string)
  : Workspace * list string * option string :=
  let w1 := status_set pending None w in
  let newVersion := cfg_version (config w1) in
  let w2 := if bool_decide (version w1 = newVersion) then w1
            else status_setDetail (arrow (version w1) newVersion) w1 in
  match writeConfig w2 with
  | Some e => (w2, written, Some e)
  | None =>
    let written' := name w2 :: written in
    match (if changelog then writeChangelog w2 (lookup_changes (name w2) changes)
           else None) with
    | Some e => (w2, written', Some e)
    | None => (status_set success None w2, written', None)
    end
  end.

Record Trace := {
  after_collect : Collection;    (* state after the first forEach *)
  after_reselect : Collection;   (* state after the second forEach *)
  before_write : Collection;     (* closures switched off *)
  after_write : Collection;
  written : list string          (* manifests written, latest first *)
}.

(** The [action] up to and including the write phase.  What follows in
    the source ([npm update] at the root and the commit-message notice)
    changes neither selection nor status. *)
Definition action (workspaces : Collection) : Trace :=
  let c0 := includeDependents None workspaces in
  let '(c1, changes, _) := forEach collect c0 [] in
  let '(c2, _, _) := forEach reselect c1 tt in
  let c3 := includeDependents (Some false) (includeDependencies (Some false) c2) in
  let '(c4, wr, _) := forEach (write changes) c3 [] in
  {| after_collect := c1; after_reselect := c2; before_write := c3;
     after_write := c4; written := wr |}.

End Action.

End Version.

(** ** The filesystem publisher ([commands/publish/src/publishers/filesystem.ts]) *)

Module Publish.
Import Js.
Import Workspaces (StatusValue, pending, success, failure, skipped).

Inductive DependencyType :=
| dependencies
| devDependencies
| peerDependencies
| optionalDependencies.

(** The parsed specifier of a link; the source narrows [spec.type]
    through ['tag'] and ['url'] and then reads [spec.range]. *)
Inductive Spec :=
| SpecNpm (name range : string)
| SpecTag (name tag : string)
| SpecUrl (protocol : string).

Record Dependency := {
  dep_dir : string;
  dep_name : string;
  dep_version : option string;
  dep_isPrivate : bool
}.

Record WorkspaceLink := {
  type : DependencyType;
  id : string;
  spec : Spec;
  dependency : Dependency
}.

Record Meta := { gitHead : option string }.

Record PackageManager := {
  getMetadata : string -> string -> option Meta
}.

(** [getIsDirty(dir?)] and [getHead({ dir }?)]; [None] is the call
    without a directory. *)
Record Git := {
  getIsDirty : option string -> bool;
  getHead : option string -> option string
}.

(** The [semver] package, as far as the publisher calls it:
    [satisfies(version, range)] and [minVersion(range)?.format()]. *)
Record Semver := {
  satisfies : string -> string -> bool;
  minVersion : string -> option string
}.

Record Workspace := {
  name : string;
  version : option string;
  isPrivate : bool;
  getDependencyLinks : list WorkspaceLink;
  getEntrypoints : list (string * string)     (* type, filename *)
}.

(** JavaScript truthiness of an optional string. *)
Definition truthy (v : option string) : bool :=
  match v with
  | Some s => negb (String.eqb s "")
  | None => false
  end.

Definition text (v : option string) : string :=
  match v with Some s => s | None => "undefined" end.

Definition is_wildcard (range : string) : bool :=
  String.eqb range "*" || String.eqb range "x".

Definition is_dev (t : DependencyType) : bool :=
  match t with devDependencies => true | _ => false end.

Section Validation.

Variable semver : Semver.
Variable pm : PackageManager.
Variable git : option Git.
Variable published : gset string.

(** [validateDependency]; the two warnings it may log are left out. *)
Definition validateDependency (link : WorkspaceLink) : completion unit :=
  let d := dependency link in
  if is_dev (type link) then Return tt
  else
    match spec link with
    | SpecTag _ _ => Return tt
    | SpecUrl protocol =>
      if String.eqb protocol "file" then Throw "dependency is local path"
      else Return tt
    | SpecNpm _ range =>
      match dep_version d with
      | None => Throw "dependency is unversioned"
      | Some version =>
        if String.eqb version "" then Throw "dependency is unversioned"
        else if dep_isPrivate d then Throw "dependency is private"
        else if negb (satisfies semver version range) then Return tt
        else if negb (is_wildcard range)
                && negb (bool_decide (minVersion semver range = Some version))
        then Throw "dependency min-version does not match workspace version"
        else if bool_decide (dep_name d ∈ published) then Return tt
        else
          match getMetadata pm (dep_name d) version with
          | None => Throw "dependency version is not published"
          | Some meta =>
            match git with
            | None => Return tt
            | Some g =>
              if getIsDirty g (Some (dep_dir d))
              then Throw "dependency has uncommitted changes"
              else if truthy (gitHead meta) then
                let head := getHead g (Some (dep_dir d)) in
                if truthy head
                   && negb (bool_decide (head = gitHead meta))
                then Throw "dependency Git head does not match published head"
                else Return tt
              else Return tt
            end
          end
      end
    end.

(** [for (const link of getDependencyLinks()) await validateDependency(...)] *)
Fixpoint validateDependencies (links : list WorkspaceLink) : completion unit :=
  match links with
  | [] => Return tt
  | link :: rest =>
    let* _ := validateDependency link in validateDependencies rest
  end.

(** [covers entry packed]: the relative path from the entry point to the
    resolved pack file does not start with [..] ([node:path]).
    [pack_dry_run] is the file list of [npm pack --dry-run --json], or
    the error of the spawn or of an unexpected JSON shape. *)
Variable covers : string -> string -> bool.
Variable pack_dry_run : completion (list string).

Definition StatusCall := (StatusValue * option string)%type.

(** [validate]: the [status.set] calls it makes and its outcome. *)
Definition validate (w : Workspace) : list StatusCall * completion bool :=
  if isPrivate w then ([(skipped, Some "private")], Return false)
  else if negb (truthy (version w)) then ([(skipped, Some "unversioned")], Return false)
  else
    match getMetadata pm (name w) (text (version w)) with
    | Some _ => ([(skipped, Some "already published")], Return false)
    | None =>
      if match git with Some g => getIsDirty g None | None => false end
      then ([], Throw "workspace has uncommitted changes")
      else
        ([], let* packed := pack_dry_run in
             let missingPackEntrypoints :=
               List.filter (fun entry =>
                         forallb (fun packEntry => negb (covers (snd entry) packEntry))
                                 packed)
                      (getEntrypoints w) in
             if negb (length missingPackEntrypoints =? 0)%nat
             then Throw "missing packed entry points"
             else let* _ := validateDependencies (getDependencyLinks w) in
                  Return true)
    end.

(** The three validation cases in which nothing is published, in the
    words of the specification of the publisher: a private workspace,
    a workspace without version, a version the registry already has. *)
Definition skip_reason (w : Workspace) : option string :=
  if isPrivate w then Some "private"
  else if negb (truthy (version w)) then Some "unversioned"
  else if bool_decide (is_Some (getMetadata pm (name w) (text (version w))))
       then Some "already published"
  else None.

Record Options := {
  toArchive : bool;
  tag : option string;
  otp : option string;
  removePackageFields : option (list string);
  dryRun : bool
}.

(** The manifest accessor ([@wurk/json]) is not part of the code
    verified here: the in-memory document and the three writes the
    publisher makes to it are parameters, as is its serialisation. *)
Variable Config : Type.
Variable set_dependency : DependencyType -> string -> string -> Config -> Config.
Variable remove_field : string -> Config -> Config.
Variable set_gitHead : string -> Config -> Config.
Variable stringify : Config -> string.

(** [spawn('npm', args)]: the child process may leave any text in
    [package.json] and either completes or makes the call throw. *)
Variable spawn_npm : list string -> option string -> option string * completion unit.

(** The callback of [getDependencyLinks().forEach] that pins wildcard
    ranges. *)
Definition update_range (config : Config) (link : WorkspaceLink) : Config :=
  if is_dev (type link) then config
  else if negb (truthy (dep_version (dependency link))) then config
  else
    match spec link with
    | SpecNpm spec_name range =>
      if negb (is_wildcard range) then config
      else
        let newRange := String.append "^" (text (dep_version (dependency link))) in
        let newSpec :=
          if String.eqb spec_name (id link) then newRange
          else String.append "npm:" (String.append spec_name (String.append "@" newRange)) in
        set_dependency (type link) (id link) newSpec config
    | _ => config
    end.

Definition npm_args (options : Options) : list string :=
  [if toArchive options then "pack" else "publish"]
  ++ (if truthy (tag options) then [String.append "--tag=" (text (tag options))] else [])
  ++ (if truthy (otp options) then [String.append "--otp=" (text (otp options))] else [])
  ++ (if dryRun options then ["--dry-run"] else []).

(** The temporary changes to the manifest: pinned ranges, removed
    fields, [gitHead]. *)
Definition prepare (options : Options) (w : Workspace) (config : Config) : Config :=
  let config1 := fold_left update_range (getDependencyLinks w) config in
  let config2 :=
    match removePackageFields options with
    | Some fields => fold_left (fun c field => remove_field field c) fields config1
    | None => config1
    end in
  let head := match git with Some g => getHead g None | None => None end in
  if truthy head then set_gitHead (text head) config2 else config2.

Definition success_detail (options : Options) (w : Workspace) : string :=
  String.append (if toArchive options then "pack" else "publish")
    (String.append " " (text (version w))).

Record Result := {
  outcome : completion unit;
  status_calls : list StatusCall;     (* status.set calls, in order *)
  published_after : gset string;
  package_json : option string;       (* text of package.json on disk *)
  config_after : Config
}.

(** [publishFromFilesystem].  [disk] is the text of the workspace's
    [package.json] before the call; the file-system writes themselves
    are taken to succeed. *)
Definition publishFromFilesystem (options : Options) (w : Workspace)
    (config : Config) (disk : option string) : Result :=
  let entry := [(pending, None)] in
  match validate w with
  | (calls, Throw m) =>
    {| outcome := Throw m; status_calls := entry ++ calls;
       published_after := published; package_json := disk; config_after := config |}
  | (calls, Return false) =>
    {| outcome := Return tt; status_calls := entry ++ calls;
       published_after := published; package_json := disk; config_after := config |}
  | (calls, Return true) =>
    let config3 := prepare options w config in
    let savedPackageJson := disk in
    if negb (truthy savedPackageJson) then
      {| outcome := Throw "failed to read package.json file";
         status_calls := entry ++ calls;
         published_after := published; package_json := disk; config_after := config3 |}
    else
      let disk1 := Some (stringify config3) in                 (* try: writeJson *)
      let '(disk2, spawned) := spawn_npm (npm_args options) disk1 in
      let disk3 := savedPackageJson in                          (* finally: writeText *)
      match spawned with
      | Throw m =>
        {| outcome := Throw m; status_calls := entry ++ calls;
           published_after := published; package_json := disk3; config_after := config3 |}
      | Return _ =>
        {| outcome := Return tt;
           status_calls :=
             entry ++ calls
             ++ [(success,
                  Some (success_detail options w))];
           published_after := {[ name w ]} ∪ published;
           package_json := disk3; config_after := config3 |}
      end
  end.

End Validation.

Arguments Build_Result {Config}.
Arguments outcome {Config}.
Arguments status_calls {Config}.
Arguments published_after {Config}.
Arguments package_json {Config}.
Arguments config_after {Config}.
Arguments publishFromFilesystem semver pm git published covers pack_dry_run {Config}.
Arguments prepare git {Config}.
Arguments update_range {Config}.

End Publish.

(** ** The command wrapper ([packages/werk/src/command/command.ts]) and
    the dependency-check command *)

Module DepCheck.
Import Js.
Import Workspaces (StatusValue, pending, success, failure, skipped).

Record Workspace := {
  name : string;
  dir : string;
  isRoot : bool;
  isSelected : bool;
  dependencies : list string;           (* keys of each manifest section *)
  peerDependencies : list string;
  optionalDependencies : list string
}.

(** [./dependency-set.js] is not part of the code verified here: the
    set is used through this interface. *)
Record DependencySetOps := {
  DependencySet : Type;
  ds_new : string -> list string -> DependencySet;
  ds_size : DependencySet -> nat;
  ds_removedUsed : string -> DependencySet -> DependencySet;
  ds_elements : DependencySet -> list string
}.

(** The source files of a workspace: [getSourceFilenames(dir)], and per
    file the module names the import/require expression captures in its
    text ([readFile] and [matchAll]); either may throw. *)
Record Files := {
  getSourceFilenames : string -> completion (list string);
  imports : string -> completion (list string)
}.

(** Module-level and process-level state, with what was logged and
    which statuses were set (latest first). *)
Record State := {
  isFailed : bool;
  exitCode : Z;                                   (* process.exitCode; 0 when unset *)
  status_calls : list (string * StatusValue * option string);
  log : list (string * string)                    (* workspace or hook, message *)
}.

Definition info (who message : string) (st : State) : State :=
  {| isFailed := isFailed st; exitCode := exitCode st;
     status_calls := status_calls st; log := (who, message) :: log st |}.

Definition setStatus (who : string) (v : StatusValue) (d : option string) (st : State) : State :=
  {| isFailed := isFailed st; exitCode := exitCode st;
     status_calls := (who, v, d) :: status_calls st; log := log st |}.

Definition set_isFailed (b : bool) (st : State) : State :=
  {| isFailed := b; exitCode := exitCode st;
     status_calls := status_calls st; log := log st |}.

Definition set_exitCode (code : Z) (st : State) : State :=
  {| isFailed := isFailed st; exitCode := code;
     status_calls := status_calls st; log := log st |}.

(** [process.exitCode ||= 1] *)
Definition exitCode_or_1 (st : State) : State :=
  set_exitCode (if (exitCode st =? 0)%Z then 1%Z else exitCode st) st.

(** The status a workspace was last given. *)
Definition status_of (who : string) (st : State) : option (StatusValue * option string) :=
  match find (fun c => String.eqb (fst (fst c)) who) (status_calls st) with
  | Some c => Some (snd (fst c), snd c)
  | None => None
  end.

(** [Object.keys({ ...a, ...b, ...c })]: every key once. *)
Fixpoint keys (l : list string) : list string :=
  match l with
  | [] => []
  | k :: rest => k :: List.filter (fun k' => negb (String.eqb k' k)) (keys rest)
  end.

(** [/\.(?:jsx|tsx)$/u.test(filename)] *)
Definition is_jsx_or_tsx (filename : string) : bool :=
  let n := String.length filename in
  (4 <=? n)%nat
  && (String.eqb (substring (n - 4) 4 filename) ".jsx"
      || String.eqb (substring (n - 4) 4 filename) ".tsx").

Section Command.

Variable ops : DependencySetOps.
Variable files : Files.

(** [spawn('npm', args, { errorEcho, errorReturn, errorSetExitCode })]:
    from the exit code so far to the exit code it leaves, and whether
    the call throws. *)
Variable spawn_npm : list string -> Z -> Z * completion unit.

(** The [for (const filename of filenames)] loop. *)
Fixpoint scan (filenames : list string) (deps : DependencySet ops)
  : completion (DependencySet ops) :=
  match filenames with
  | [] => Return deps
  | filename :: rest =>
    if (ds_size ops deps =? 0)%nat then Return deps
    else
      let* names := imports files filename in
      scan rest (fold_left (fun d n => ds_removedUsed ops n d) names deps)
  end.

(** What the scan leaves of a workspace's dependencies: the set that
    [each] tests after the loop. *)
Definition unused (w : Workspace) : completion (DependencySet ops) :=
  let deps :=
    ds_new ops (dir w)
      (keys (dependencies w ++ peerDependencies w ++ optionalDependencies w)) in
  if (ds_size ops deps =? 0)%nat then Return deps
  else
    let* filenames := getSourceFilenames files (dir w) in
    let isReact := existsb is_jsx_or_tsx filenames in
    scan filenames (if isReact then ds_removedUsed ops "react" deps else deps).

Definition remove_args (w : Workspace) (deps : DependencySet ops) : list string :=
  (if negb (isRoot w) then ["-w"; name w] else [])
  ++ "remove" :: ds_elements ops deps.

(** The [each] hook, one workspace at a time: the chained promise it
    awaits under [--fix] has then the outcome of its own [spawn]. *)
Definition each (opts_fix : bool) (w : Workspace) (st : State) : State * completion unit :=
  if negb (isSelected w) then (st, Return tt)
  else
    let st := setStatus (name w) pending None (info (name w) "Checking dependencies." st) in
    let deps :=
      ds_new ops (dir w)
        (keys (dependencies w ++ peerDependencies w ++ optionalDependencies w)) in
    if (ds_size ops deps =? 0)%nat then
      (setStatus (name w) success (Some "no dependencies")
         (info (name w) "No dependencies found." st), Return tt)
    else
      match getSourceFilenames files (dir w) with
      | Throw m => (st, Throw m)
      | Return filenames =>
        let isReact := existsb is_jsx_or_tsx filenames in
        let deps := if isReact then ds_removedUsed ops "react" deps else deps in
        let st := info (name w) "Scanning for imports and requires." st in
        match scan filenames deps with
        | Throw m => (st, Throw m)
        | Return deps =>
          if (ds_size ops deps =? 0)%nat then
            (setStatus (name w) success None
               (info (name w) "All dependencies are used." st), Return tt)
          else if negb opts_fix then
            let st := info (name w) "Unused dependencies:" st in
            let st := fold_left (fun s d => info (name w) (String.append "  - " d) s)
                                (ds_elements ops deps) st in
            (set_isFailed true (setStatus (name w) failure None st), Return tt)
          else
            let st := info (name w) "Removing unused dependencies." st in
            let '(code, spawned) := spawn_npm (remove_args w deps) (exitCode st) in
            let st := set_exitCode code st in
            match spawned with
            | Throw m => (st, Throw m)
            | Return _ =>
              (setStatus (name w) success (Some "fixed")
                 (info (name w) "All remaining dependencies are used." st), Return tt)
            end
        end
      end.

(** The [after] hook. *)
Definition after (st : State) : State * completion unit :=
  (if isFailed st then exitCode_or_1 st else st, Return tt).

(** [Command.each] and [Command.after] of the wrapper: the hook's
    error is logged and turned into a non-zero exit code; nothing is
    re-thrown. *)
Definition caught (who : string) (r : State * completion unit) : State :=
  match r with
  | (st, Return _) => st
  | (st, Throw m) => exitCode_or_1 (info who m st)
  end.

Definition Command_each (hook : option (Workspace -> State -> State * completion unit))
    (w : Workspace) (st : State) : State :=
  match hook with
  | None => st
  | Some h => caught (name w) (h w st)
  end.

Definition Command_after (hook : option (State -> State * completion unit))
    (st : State) : State :=
  match hook with
  | None => st
  | Some h => caught "after" (h st)
  end.

(** Modelled from the spec: the hooks are called by a runner that is
    not part of the code verified here.  [each_all] composes the calls
    of [Command.each] for the workspaces [ws], in this order: what a
    runner leaves that calls the hook for exactly these workspaces, as
    the scheduler of section 4.4 does for all of them.  Which
    workspaces a runner calls the hook for is the matter of
    [each_until] below. *)
Definition each_all (opts_fix : bool) (ws : list Workspace) (st : State) : State :=
  fold_left (fun s w => Command_each (Some (each opts_fix)) w s) ws st.

(** Modelled from the spec: [Command.after] is called once, after the
    calls for the workspaces (the [before] hook only asks for the
    summary). *)
Definition run (opts_fix : bool) (ws : list Workspace) (st : State) : State :=
  Command_after (Some after) (each_all opts_fix ws st).

(** Modelled from the spec: the runner that calls the hooks is not part
    of the code verified here.  The scheduler of the specification
    (sections 4.4 and 7) invokes the action for every workspace and
    never stops on an error; the comment in the [after] hook says that
    processing stops once the exit code is set.  [each_until stop] goes
    from workspace to workspace and stops as soon as [stop] holds of
    the exit code: with [fun _ => false] it is the scheduler of the
    specification, with [fun code => negb (code =? 0)] the runner of the
    comment.  The second component lists the workspaces the hook was
    called for. *)
Fixpoint each_until (stop : Z -> bool) (opts_fix : bool) (ws : list Workspace)
    (st : State) : State * list Workspace :=
  match ws with
  | [] => (st, [])
  | w :: rest =>
    if stop (exitCode st) then (st, [])
    else
      let '(st', called) :=
        each_until stop opts_fix rest (Command_each (Some (each opts_fix)) w st) in
      (st', w :: called)
  end.

(** Modelled from the spec: the [after] hook is called once the
    workspaces have been processed. *)
Definition run_until (stop : Z -> bool) (opts_fix : bool) (ws : list Workspace)
    (st : State) : State :=
  Command_after (Some after) (fst (each_until stop opts_fix ws st)).

End Command.

(** *** The shared promise chain under [--fix]

    When workspaces are processed in parallel, what matters is when
    things happen.  A promise is described by when it settles and how;
    time is counted in ticks of the event loop. *)

Inductive Settled :=
| Fulfilled
| Rejected (reason : string).

Record Promise := {
  settles_at : nat;
  settled : Settled
}.

(** [Promise.resolve()] *)
Definition Promise_resolve : Promise := {| settles_at := 0; settled := Fulfilled |}.

(** [p.catch(onRejected)] for a handler that returns at once. *)
Definition catch_ (onRejected : string -> Settled) (p : Promise) : Promise :=
  {| settles_at := settles_at p;
     settled := match settled p with
                | Fulfilled => Fulfilled
                | Rejected r => onRejected r
                end |}.

(** [p.then(onFulfilled)] called at time [now], for an asynchronous
    callback: it is called once [p] is fulfilled, not before [now], and
    the new promise follows the one it returns; a rejection of [p]
    passes through and the callback is never called.  The second
    component is the time of the call, if any. *)
Definition then_ (now : nat) (onFulfilled : nat -> Promise) (p : Promise)
  : Promise * option nat :=
  match settled p with
  | Fulfilled =>
    let start := Nat.max now (settles_at p) in (onFulfilled start, Some start)
  | Rejected r =>
    ({| settles_at := Nat.max now (settles_at p); settled := Rejected r |}, None)
  end.

(** A workspace reaching the [--fix] statement: how long after the
    previous one, how long its [npm remove] runs and how it ends. *)
Record Arrival := {
  who : string;
  gap : nat;
  duration : nat;
  result : Settled
}.

(** The callback given to [then]: it logs, spawns, and settles with
    the spawn. *)
Definition remove_body (a : Arrival) (start : nat) : Promise :=
  {| settles_at := start + duration a; settled := result a |}.

(** One [npm remove] run, and what the workspace's [await] sees. *)
Record Removal := {
  workspace : string;
  begins : nat;
  ends : nat;
  awaited : Settled
}.

(** [await (npmUpdatePromise = npmUpdatePromise.catch(() => {}).then(async () => {...}))]:
    the new value of the module variable and the run, if there is one. *)
Definition fix_step (now : nat) (a : Arrival) (npmUpdatePromise : Promise)
  : Promise * option Removal :=
  let '(next, started) :=
    then_ now (remove_body a) (catch_ (fun _ => Fulfilled) npmUpdatePromise) in
  (next,
   match started with
   | Some start => Some {| workspace := who a; begins := start;
                           ends := settles_at next; awaited := settled next |}
   | None => None
   end).

Fixpoint fix_all (now : nat) (npmUpdatePromise : Promise) (arrivals : list Arrival)
  : list (option Removal) :=
  match arrivals with
  | [] => []
  | a :: rest =>
    let now' := now + gap a in
    let '(next, removal) := fix_step now' a npmUpdatePromise in
    removal :: fix_all now' next rest
  end.

End DepCheck.


(** ** Package-manager detection: the walk up ([createPackageManager]) *)

Module PmWalk.
Import Js Pm.

(** An absolute, normalised POSIX path by its segments, innermost
    first: [nodePath.dirname] drops the head, and the root is its own
    parent. *)
Definition path := list string.

Fixpoint render_from_root (segments : list string) : string :=
  match segments with
  | [] => ""
  | s :: rest => String.append "/" (String.append s (render_from_root rest))
  end.

Definition render (p : path) : string :=
  match p with
  | [] => "/"
  | _ => render_from_root (rev p)
  end.

(** What the file system answers in one directory. *)
Record Probe := {
  probe_package_json : option Config;
  probe_yarn_lock : bool;
  probe_pnpm_lock : bool
}.

Definition dir_at (fs : path -> Probe) (p : path) : Dir :=
  {| dir := render p;
     package_json := probe_package_json (fs p);
     yarn_lock := probe_yarn_lock (fs p);
     pnpm_lock := probe_pnpm_lock (fs p) |}.

Definition rootDir (pm : PackageManager) : string :=
  match pm with Npm r | Pnpm r | Yarn r => r end.

(** [do { ... } while (dir !== (dir = nodePath.dirname(dir)))]: the body
    runs in [cwd] first, and the loop ends after the root. *)
Fixpoint createPackageManager (fs : path -> Probe) (cwd : path)
  : completion PackageManager :=
  match tryCreatePackageManager (dir_at fs cwd) with
  | Throw m => Throw m
  | Return (Some pm) => Return pm
  | Return None =>
    match cwd with
    | [] => Throw "could not determine package manager"
    | _ :: parent => createPackageManager fs parent
    end
  end.

End PmWalk.

(** ** The runner of a parsed command line ([core/cli/src/run.ts], [run]) *)

Module CliRun.
Import Js.

(** The parse result, as far as [run] reads it: [result.command], the
    sub-command results by name, in the order of [Object.entries]. *)
Inductive Result :=
| MkResult (command : list (string * option Result)).

(** The order of the calls is observed through a trace, which is not in
    the source: an action or a clean-up is entered in it when called. *)
Inductive Event :=
| Acted (cli action : string)
| Cleaned (cli action : string).

Section Runner.

(** Whatever the actions work on. *)
Variable S : Type.

Definition CleanupAction := Result -> S -> S * completion unit.
Definition Action := Result -> S -> S * completion (option CleanupAction).

Inductive Cli :=
| MkCli (name : string) (actions : list (string * Action)) (commands : list Cli).

Definition cli_name (c : Cli) : string := match c with MkCli n _ _ => n end.

(** The first loop: [cleanupActions.unshift(cleanupAction)]. *)
Fixpoint run_actions (cli : string) (actions : list (string * Action)) (result : Result)
    (cleanupActions : list (string * CleanupAction)) (st : S) (tr : list Event)
  : S * list Event * completion (list (string * CleanupAction)) :=
  match actions with
  | [] => (st, tr, Return cleanupActions)
  | (label, action) :: rest =>
    match action result st with
    | (st', Throw m) => (st', tr ++ [Acted cli label], Throw m)
    | (st', Return cleanupAction) =>
      run_actions cli rest result
        (match cleanupAction with
         | Some f => (label, f) :: cleanupActions
         | None => cleanupActions
         end)
        st' (tr ++ [Acted cli label])
    end
  end.

(** The actions that hand back a clean-up, in the order of the calls;
    the state goes from one action to the next. *)
Fixpoint registering (actions : list (string * Action)) (result : Result) (st : S)
  : list string :=
  match actions with
  | [] => []
  | (label, action) :: rest =>
    match action result st with
    | (st', Return (Some _)) => label :: registering rest result st'
    | (st', Return None) => registering rest result st'
    | (st', Throw _) => []
    end
  end.

(** The last loop: [for (const callback of cleanupActions)]. *)
Fixpoint run_cleanups (cli : string) (cleanupActions : list (string * CleanupAction))
    (result : Result) (st : S) (tr : list Event) : S * list Event * completion unit :=
  match cleanupActions with
  | [] => (st, tr, Return tt)
  | (label, callback) :: rest =>
    match callback result st with
    | (st', Throw m) => (st', tr ++ [Cleaned cli label], Throw m)
    | (st', Return _) => run_cleanups cli rest result st' (tr ++ [Cleaned cli label])
    end
  end.

(** [run]: actions, then the sub-commands that have a result, then the
    clean-ups.  A sub-command that [find] does not deliver makes the
    recursive call fail on [undefined]. *)
Fixpoint run (cli : Cli) (result : Result) (st : S) (tr : list Event) {struct result}
  : S * list Event * completion unit :=
  match cli, result with
  | MkCli name actions commands, MkResult entries =>
    match run_actions name actions result [] st tr with
    | (st1, tr1, Throw m) => (st1, tr1, Throw m)
    | (st1, tr1, Return cleanupActions) =>
      match
        (fix run_commands (entries : list (string * option Result)) (st : S)
             (tr : list Event) {struct entries} : S * list Event * completion unit :=
           match entries with
           | [] => (st, tr, Return tt)
           | (commandName, None) :: rest => run_commands rest st tr
           | (commandName, Some commandResult) :: rest =>
             match find (fun c => String.eqb (cli_name c) commandName) commands with
             | None => (st, tr, Throw "TypeError")
             | Some command =>
               match run command commandResult st tr with
               | (st', tr', Throw m) => (st', tr', Throw m)
               | (st', tr', Return _) => run_commands rest st' tr'
               end
             end
           end) entries st1 tr1
      with
      | (st2, tr2, Throw m) => (st2, tr2, Throw m)
      | (st2, tr2, Return _) => run_cleanups name cleanupActions result st2 tr2
      end
    end
  end.

(** The middle loop on its own, over any runner of one sub-command. *)
Fixpoint run_commands (runner : Cli -> Result -> S -> list Event
                                -> S * list Event * completion unit)
    (commands : list Cli) (entries : list (string * option Result)) (st : S)
    (tr : list Event) : S * list Event * completion unit :=
  match entries with
  | [] => (st, tr, Return tt)
  | (commandName, None) :: rest => run_commands runner commands rest st tr
  | (commandName, Some commandResult) :: rest =>
    match find (fun c => String.eqb (cli_name c) commandName) commands with
    | None => (st, tr, Throw "TypeError")
    | Some command =>
      match runner command commandResult st tr with
      | (st', tr', Throw m) => (st', tr', Throw m)
      | (st', tr', Return _) => run_commands runner commands rest st' tr'
      end
    end
  end.

End Runner.

Arguments MkCli {S}.
Arguments cli_name {S}.
Arguments run_actions {S}.
Arguments registering {S}.
Arguments run_cleanups {S}.
Arguments run {S}.
Arguments run_commands {S}.

(** The number of results in a result tree. *)
Fixpoint size (r : Result) : nat :=
  match r with
  | MkResult entries =>
    S ((fix sizes (es : list (string * option Result)) : nat :=
          match es with
          | [] => 0
          | (_, None) :: rest => sizes rest
          | (_, Some r') :: rest => size r' + sizes rest
          end) entries)
  end.

End CliRun.

(** ** The commander of the werk CLI ([commander/commander.ts]) *)

Module Commander.
Import Run.

(** [String.prototype.trim]: the white space of [\s] at both ends. *)
Definition trim (s : jsstr) : jsstr := rstrip (skip_space s).

Definition is_line_terminator (c : N) : bool :=
  ((c =? 10) || (c =? 13) || (c =? 8232) || (c =? 8233))%N.

(** [[a-z]] and [toUpperCase] on it. *)
Definition is_lower (c : N) : bool := ((97 <=? c) && (c <=? 122))%N.
Definition toUpperCase (c : N) : N := (c - 32)%N.

(** [[.!?]] *)
Definition is_punctuation (c : N) : bool :=
  ((c =? 46) || (c =? 33) || (c =? 63))%N.

Fixpoint strip_prefix (prefix s : jsstr) : option jsstr :=
  match prefix, s with
  | [], _ => Some s
  | p :: prefix', c :: s' => if (p =? c)%N then strip_prefix prefix' s' else None
  | _ :: _, [] => None
  end.

(** The text the lazy group [(.*?)] ends up with: everything up to a
    final punctuation mark, if there is one. *)
Definition lazy_rest (tail : jsstr) : jsstr :=
  match last tail with
  | Some c => if is_punctuation c then removelast tail else tail
  | None => tail
  end.

(** [${rest}${punctuation || '.'}] *)
Definition punctuated (tail : jsstr) : jsstr :=
  match last tail with
  | Some c => if is_punctuation c then tail else tail ++ [46%N]
  | None => [46%N]
  end.

(** [str.replace(/^error: ([a-z])(.*?)([.!?]?)$/u, ...)]: the pattern is
    anchored at both ends, so it matches the whole string or nothing;
    [.] takes no line terminator. *)
Definition replace_error (str : jsstr) : jsstr :=
  match strip_prefix (of_string "error: ") str with
  | Some (firstChar :: tail) =>
    if is_lower firstChar
       && forallb (fun c => negb (is_line_terminator c)) (lazy_rest tail)
    then toUpperCase firstChar :: punctuated tail
    else str
  | _ => str
  end.

(** [outputError]: what is handed to [log.error]. *)
Definition outputError (str : jsstr) : jsstr := replace_error (trim str).

(** The state of a command that [name] reads and writes. *)
Record Command := {
  _name : string;
  _aliases : list string
}.

Inductive NameResult :=
| ItsName (n : string)          (* the getter *)
| This (c : Command).           (* the fluent setter *)

Section Name.

(** [alias] of the base class. *)
Variable alias : string -> Command -> Command.

(** [name(name?)]: [name == null ? super.name() : super.name() ?
    this.alias(name) : this.name(name)].  The last branch calls the
    method itself, so the model counts the calls it may still make;
    [None] is a call that has not returned within them. *)
Fixpoint name (calls : nat) (c : Command) (argument : option string)
  : option NameResult :=
  match calls with
  | O => None
  | S calls' =>
    match argument with
    | None => Some (ItsName (_name c))
    | Some n =>
      if negb (String.eqb (_name c) "") then Some (This (alias n c))
      else name calls' c (Some n)
    end
  end.

End Name.

End Commander.

(** ** The archive publisher ([commands/publish/src/publishers/archive.ts]) *)

Module Archive.
Import Js.

Record Workspace := {
  dir : string;
  name : string;
  version : option string
}.

Record Options := {
  tag : option string;
  otp : option string;
  dryRun : bool
}.

Section Publisher.

(** [getPackBasename] and [publish] are imported from modules that are
    not part of the code verified here; [resolve] and [access] are
    [nodePath.resolve] and whether [nodeFs.access] succeeds. *)
Variable getPackBasename : string -> string -> string.
Variable resolve : string -> string -> string.
Variable access : string -> bool.
Variable publish : Workspace -> string -> Options -> completion unit.

(** [publishFromArchive]: what it logs and how it ends. *)
Definition publishFromArchive (options : Options) (w : Workspace)
  : list string * completion unit :=
  if negb (Publish.truthy (version w)) then (["workspace is unversioned"], Return tt)
  else
    let archiveFilename :=
      resolve (dir w) (getPackBasename (name w) (Publish.text (version w))) in
    let exists_ := access archiveFilename in
    if negb exists_ then (["workspace has no archive"], Return tt)
    else
      match publish w archiveFilename options with
      | Throw m => ([], Throw m)
      | Return _ =>
        ([String.append "published version "
            (String.append (Publish.text (version w)) " from archive")], Return tt)
      end.

End Publisher.

End Archive.

(** ** More of the root CLI ([core/cli/src/run.ts]) *)

Module RunOptions.
Import Run.

(** [.optionAction('concurrency', ({ result }) => { result.options.stream = true; })] *)
Definition concurrency_optionAction (options : Options) : Options :=
  {| expressions := expressions options;
     includeRootWorkspace := includeRootWorkspace options;
     parallel := parallel options;
     stream := Some true;
     concurrency := concurrency options;
     script := script options;
     scriptArgs := scriptArgs options |}.

(** The parser of [-w, --workspace <expression>]: every occurrence is
    appended to what came before. *)
Definition parse_workspace (value : string) (previous : option (list string))
  : list string :=
  match previous with
  | Some p => p ++ [value]
  | None => [value]
  end.

(** The elements of a split that are not the last keep no white space
    on the right, those that are not the first none on the left. *)
Definition inner_ends_trimmed (l : list jsstr) : Prop :=
  Forall (fun p => rstrip p = p) (removelast l)
  /\ Forall (fun p => skip_space p = p) (tail l).

(** No position inside the piece read so far starts a separator. *)
Definition no_match_inside (piece s : jsstr) : Prop :=
  forall a b, piece = a ++ b -> b <> [] -> match_separator (b ++ s) = None.

End RunOptions.

(** ** Sample inputs *)

Module Samples.
Import Js.

Definition no_options : Run.Options :=
  {| Run.expressions := None; Run.includeRootWorkspace := None;
     Run.parallel := None; Run.stream := None; Run.concurrency := None;
     Run.script := None; Run.scriptArgs := [] |}.

Definition no_env : Run.Env :=
  {| Run.WURK_WORKSPACE_EXPRESSIONS := None;
     Run.WURK_INCLUDE_ROOT_WORKSPACE := None;
     Run.WURK_PARALLEL := None; Run.WURK_STREAM := None;
     Run.WURK_CONCURRENCY := None; Run.WURK_RUNNING_COMMANDS := None |}.

Definition both_flags : Run.Options :=
  {| Run.expressions := Some ["pkg-a"]; Run.includeRootWorkspace := None;
     Run.parallel := Some true; Run.stream := Some true;
     Run.concurrency := None; Run.script := None; Run.scriptArgs := [] |}.

Definition build : Run.jsstr := Run.of_string "build".
Definition lint : Run.jsstr := Run.of_string "lint".


(** A world in which every call returns: one workspace whose manifest
    has no name, and a root manifest with a [test] script. *)
Definition quiet : Run.World :=
  {| Run.getWorkspaces := Return [("packages/a", {| Run.name_field := None |})];
     Run.new_WorkspaceCollection := fun _ => None;
     Run.select := fun _ => None;
     Run.init := None;
     Run.root_scripts := ["test"];
     Run.spawnPackageScript := fun _ _ => None |}.


(** Publisher inputs.  [semver_table] holds the answers of the
    [semver] package on the version and range pairs used below. *)
Definition semver_table : Publish.Semver :=
  {| Publish.satisfies := fun v r =>
       bool_decide ((v, r) ∈ [("1.0.0", "*"); ("1.0.0", "x"); ("1.0.0", "^1.0.0");
                              ("2.0.0", "^2.0.0")]);
     Publish.minVersion := fun r =>
       if String.eqb r "^1.0.0" then Some "1.0.0"
       else if String.eqb r "^2.0.0" then Some "2.0.0"
       else if String.eqb r "*" then Some "0.0.0"
       else None |}.

Definition empty_registry : Publish.PackageManager :=
  {| Publish.getMetadata := fun _ _ => None |}.

Definition registry_with_a : Publish.PackageManager :=
  {| Publish.getMetadata := fun n v =>
       if String.eqb n "pkg-a" && String.eqb v "1.0.0"
       then Some {| Publish.gitHead := None |} else None |}.

Definition pkg_a : Publish.Workspace :=
  {| Publish.name := "pkg-a"; Publish.version := Some "1.0.0";
     Publish.isPrivate := false; Publish.getDependencyLinks := [];
     Publish.getEntrypoints := [] |}.

Definition pkg_private : Publish.Workspace :=
  {| Publish.name := "pkg-p"; Publish.version := None;
     Publish.isPrivate := true; Publish.getDependencyLinks := [];
     Publish.getEntrypoints := [] |}.

(** [utils] is a private in-repo workspace at 1.0.0; the dependent asks
    for [^2.0.0], which 1.0.0 does not satisfy. *)
Definition utils_private : Publish.Dependency :=
  {| Publish.dep_dir := "packages/utils"; Publish.dep_name := "utils";
     Publish.dep_version := Some "1.0.0"; Publish.dep_isPrivate := true |}.

Definition utils_public : Publish.Dependency :=
  {| Publish.dep_dir := "packages/utils"; Publish.dep_name := "utils";
     Publish.dep_version := Some "1.0.0"; Publish.dep_isPrivate := false |}.


Definition link_to (d : Publish.Dependency) (range : string) : Publish.WorkspaceLink :=
  {| Publish.type := Publish.dependencies; Publish.id := "utils";
     Publish.spec := Publish.SpecNpm "utils" range; Publish.dependency := d |}.

Definition plain_options : Publish.Options :=
  {| Publish.toArchive := false; Publish.tag := None; Publish.otp := None;
     Publish.removePackageFields := None; Publish.dryRun := false |}.

(** A manifest document that is its own text. *)
Definition set_dependency_text (t : Publish.DependencyType) (id v : string)
    (c : string) : string :=
  String.append c (String.append id v).
Definition remove_field_text (field c : string) : string := c.
Definition set_gitHead_text (head c : string) : string := String.append c head.
Definition stringify_text (c : string) : string := c.

Definition npm_succeeds (args : list string) (disk : option string)
  : option string * completion unit := (disk, Return tt).

Definition npm_fails (args : list string) (disk : option string)
  : option string * completion unit := (Some "{ broken", Throw "npm ERR!").

Definition covers_all (entry packed : string) : bool := true.

(** Dependency-check inputs: a dependency set kept as a list. *)
Definition list_set : DepCheck.DependencySetOps :=
  {| DepCheck.DependencySet := list string;
     DepCheck.ds_new := fun _ names => names;
     DepCheck.ds_size := fun s => length s;
     DepCheck.ds_removedUsed := fun n s => List.filter (fun d => negb (String.eqb d n)) s;
     DepCheck.ds_elements := fun s => s |}.

Definition one_source : DepCheck.Files :=
  {| DepCheck.getSourceFilenames := fun _ => Return ["src/index.ts"];
     DepCheck.imports := fun _ => Return ["lodash"] |}.

Definition npm_remove_ok (args : list string) (code : Z) : Z * completion unit :=
  (code, Return tt).

Definition tidy : DepCheck.Workspace :=
  {| DepCheck.name := "tidy"; DepCheck.dir := "packages/tidy";
     DepCheck.isRoot := false; DepCheck.isSelected := true;
     DepCheck.dependencies := ["lodash"]; DepCheck.peerDependencies := [];
     DepCheck.optionalDependencies := [] |}.

Definition sloppy : DepCheck.Workspace :=
  {| DepCheck.name := "sloppy"; DepCheck.dir := "packages/sloppy";
     DepCheck.isRoot := false; DepCheck.isSelected := true;
     DepCheck.dependencies := ["lodash"; "left-pad"];
     DepCheck.peerDependencies := []; DepCheck.optionalDependencies := [] |}.

Definition fresh_state : DepCheck.State :=
  {| DepCheck.isFailed := false; DepCheck.exitCode := 0;
     DepCheck.status_calls := []; DepCheck.log := [] |}.

(** Two workspaces under [--fix]: the first removal fails. *)
Definition two_arrivals : list DepCheck.Arrival :=
  [ {| DepCheck.who := "sloppy"; DepCheck.gap := 1; DepCheck.duration := 5;
       DepCheck.result := DepCheck.Rejected "npm ERR!" |};
    {| DepCheck.who := "messy"; DepCheck.gap := 1; DepCheck.duration := 3;
       DepCheck.result := DepCheck.Fulfilled |} ].

(** Version-command inputs: [lib] is selected and gets a new version,
    [app] depends on [lib] and has its range updated by [sync], [docs]
    is selected and stays as it is. *)
Definition ws_of (n : string) (selected modified : bool) : Workspaces.Workspace :=
  {| Workspaces.name := n; Workspaces.dir := String.append "packages/" n;
     Workspaces.isRoot := false; Workspaces.isPrivate := false;
     Workspaces.keywords := []; Workspaces.version := Some "1.0.0";
     Workspaces.config := {| Workspaces.cfg_version := Some "1.0.0";
                             Workspaces.cfg_isModified := modified |};
     Workspaces.isSelected := selected;
     Workspaces.status := {| Workspaces.status_value := Workspaces.pending;
                             Workspaces.status_detail := None |} |}.

Definition three_packages : Workspaces.Collection :=
  {| Workspaces.all := [ws_of "lib" true false; ws_of "app" false false;
                        ws_of "docs" true false];
     Workspaces.links := [("app", "lib")];
     Workspaces.includeRootWorkspace := false;
     Workspaces.dependencies_enabled := false;
     Workspaces.dependents_enabled := false |}.

Definition bump_minor (w : Workspaces.Workspace) : Workspaces.Config * list string :=
  if String.eqb (Workspaces.name w) "lib"
  then ({| Workspaces.cfg_version := Some "1.1.0"; Workspaces.cfg_isModified := true |},
        ["minor"])
  else (Workspaces.config w, []).

Definition sync_ranges (w : Workspaces.Workspace) : Workspaces.Config * list string :=
  if String.eqb (Workspaces.name w) "app"
  then ({| Workspaces.cfg_version := Workspaces.cfg_version (Workspaces.config w);
           Workspaces.cfg_isModified := true |}, ["range"])
  else (Workspaces.config w, []).

Definition git_clean (w : Workspaces.Workspace) : bool := false.
Definition write_ok (w : Workspaces.Workspace) : option string := None.
Definition changelog_ok (w : Workspaces.Workspace) (cs : list string) : option string := None.

End Samples.


(** ** More sample inputs *)

Module Samples2.
Import Js.

(** A repository at [/repo] with a package in [/repo/packages/a]; the
    directory [/repo/packages] has no [package.json]. *)
Definition plain_manifest : Pm.Config :=
  {| Pm.packageManager := None; Pm.workspaces_exists := false |}.

Definition root_manifest : Pm.Config :=
  {| Pm.packageManager := Some "pnpm@8.6.0"; Pm.workspaces_exists := true |}.

Definition repo_fs (p : PmWalk.path) : PmWalk.Probe :=
  if bool_decide (p = ["a"; "packages"; "repo"]) then
    {| PmWalk.probe_package_json := Some plain_manifest;
       PmWalk.probe_yarn_lock := false; PmWalk.probe_pnpm_lock := false |}
  else if bool_decide (p = ["repo"]) then
    {| PmWalk.probe_package_json := Some root_manifest;
       PmWalk.probe_yarn_lock := true; PmWalk.probe_pnpm_lock := false |}
  else
    {| PmWalk.probe_package_json := None;
       PmWalk.probe_yarn_lock := false; PmWalk.probe_pnpm_lock := false |}.

(** The same with the package directly under the root. *)
Definition flat_fs (p : PmWalk.path) : PmWalk.Probe :=
  if bool_decide (p = ["a"; "repo"]) then
    {| PmWalk.probe_package_json := Some plain_manifest;
       PmWalk.probe_yarn_lock := false; PmWalk.probe_pnpm_lock := false |}
  else repo_fs p.

(** A command line whose state counts the calls made: [open] registers a
    clean-up, [load] throws, [close] is never reached. *)
Definition calls_cleanup : CliRun.CleanupAction nat :=
  fun _ n => (S n, Return tt).

Definition act_open : CliRun.Action nat :=
  fun _ n => (S n, Return (Some calls_cleanup)).

Definition act_plain : CliRun.Action nat :=
  fun _ n => (S n, Return None).

Definition act_load : CliRun.Action nat :=
  fun _ n => (S n, Throw "cannot load").

Definition no_commands : CliRun.Result := CliRun.MkResult [].

Definition failing_cli : CliRun.Cli nat :=
  CliRun.MkCli "wurk" [("open", act_open); ("load", act_load); ("close", act_open)] [].

Definition build_cli : CliRun.Cli nat :=
  CliRun.MkCli "build" [("prepare", act_open)] [].

Definition nested_cli : CliRun.Cli nat :=
  CliRun.MkCli "wurk" [("open", act_open); ("check", act_plain); ("lock", act_open)]
    [build_cli].

Definition build_result : CliRun.Result :=
  CliRun.MkResult [("test", None); ("build", Some no_commands)].

(** [alias] of the base class, as far as the alias list goes. *)
Definition push_alias (n : string) (c : Commander.Command) : Commander.Command :=
  {| Commander._name := Commander._name c;
     Commander._aliases := Commander._aliases c ++ [n] |}.

Definition unnamed : Commander.Command :=
  {| Commander._name := ""; Commander._aliases := [] |}.

Definition named_build : Commander.Command :=
  {| Commander._name := "build"; Commander._aliases := [] |}.

(** A workspace that depends on [utils] at [^1.0.0]. *)
Definition pkg_b : Publish.Workspace :=
  {| Publish.name := "pkg-b"; Publish.version := Some "1.0.0";
     Publish.isPrivate := false;
     Publish.getDependencyLinks := [Samples.link_to Samples.utils_public "^1.0.0"];
     Publish.getEntrypoints := [] |}.

Definition dev_link : Publish.WorkspaceLink :=
  {| Publish.type := Publish.devDependencies; Publish.id := "utils";
     Publish.spec := Publish.SpecNpm "utils" "^2.0.0";
     Publish.dependency := Samples.utils_private |}.

(** A workspace whose sources cannot be listed. *)
Definition unreadable : DepCheck.Files :=
  {| DepCheck.getSourceFilenames := fun d =>
       if String.eqb d "packages/sloppy" then Throw "EACCES"
       else Return ["src/index.ts"];
     DepCheck.imports := fun _ => Return ["lodash"] |}.

Definition npm_remove_fails (args : list string) (code : Z) : Z * completion unit :=
  (1%Z, Return tt).

End Samples2.
(** * Theorems *)

(** ** Package-manager detection *)

Module PmFacts.
Import Js Pm.

Lemma loose_ne_null_bool (b : bool) : loose_ne_null (VBool b) = true.
Proof. reflexivity. Qed.

Example detect_pnpm_by_lock :
  tryCreatePackageManager
    {| dir := "/repo";
       package_json := Some {| packageManager := None; workspaces_exists := false |};
       yarn_lock := false; pnpm_lock := true |}
  = Return (Some (Pnpm "/repo")).
Proof. reflexivity. Qed.

Example detect_by_field :
  tryCreatePackageManager
    {| dir := "/repo";
       package_json := Some {| packageManager := Some "npm@10.2.0";
                               workspaces_exists := true |};
       yarn_lock := true; pnpm_lock := false |}
  = Return (Some (Npm "/repo")).
Proof. reflexivity. Qed.

(** An Npm instance is only ever built from a [packageManager] field. *)
Lemma npm_only_by_field d r :
  tryCreatePackageManager d = Return (Some (Npm r)) ->
  exists c pm, package_json d = Some c
               /\ packageManager c = Some pm
               /\ exec_name pm = Some "npm".
Proof.
  unfold tryCreatePackageManager.
  destruct (package_json d) as [c|] eqn:Hc; [|discriminate].
  destruct (packageManager c) as [pm|] eqn:Hpm.
  - destruct (exec_name pm) as [n|] eqn:Hn; [|discriminate].
    destruct (String.eqb n "npm") eqn:E1.
    + apply String.eqb_eq in E1. subst n. intros _. exists c, pm. auto.
    + destruct (String.eqb n "pnpm"); [discriminate|].
      destruct (String.eqb n "yarn"); discriminate.
  - destruct (workspaces_exists c).
    + rewrite loose_ne_null_bool. discriminate.
    + destruct (pnpm_lock d); discriminate.
Qed.

(** C8: a directory whose [package.json] has no [packageManager] field
    and has a [workspaces] field is a Yarn root whatever the [yarn.lock]
    probe answers: the test [yarnLockExists != null] holds for both
    answers, so the result is never the Npm instance of the line after
    it. *)
Theorem C8_workspaces_always_yarn (d : Dir) (c : Config) :
  package_json d = Some c ->
  packageManager c = None ->
  workspaces_exists c = true ->
  tryCreatePackageManager d = Return (Some (Yarn (dir d)))
  /\ (forall probe : bool, loose_ne_null (VBool probe) = true)
  /\ tryCreatePackageManager d <> Return (Some (Npm (dir d))).
Proof.
  intros Hc Hpm Hws.
  assert (H : tryCreatePackageManager d = Return (Some (Yarn (dir d)))).
  { unfold tryCreatePackageManager. rewrite Hc, Hpm, Hws.
    now rewrite loose_ne_null_bool. }
  split; [exact H|]. split; [exact loose_ne_null_bool|].
  rewrite H. discriminate.
Qed.

Lemma C8_witness :
  let c := {| packageManager := None; workspaces_exists := true |} in
  let d := {| dir := "/repo"; package_json := Some c;
              yarn_lock := false; pnpm_lock := false |} in
  tryCreatePackageManager d = Return (Some (Yarn "/repo"))
  /\ (forall probe : bool, loose_ne_null (VBool probe) = true)
  /\ tryCreatePackageManager d <> Return (Some (Npm "/repo")).
Proof.
  intros c d.
  exact (C8_workspaces_always_yarn d c eq_refl eq_refl eq_refl).
Defined.

End PmFacts.

(** ** The CLI action *)

Module RunFacts.
Import Js Run Samples.

Example both_flags_parallel :
  option_map co_defaultIterationMethod
    (collection_of (action quiet both_flags (Some (of_string "build")) no_env))
  = Some forEachParallel.
Proof. reflexivity. Qed.

(** The guard of the callback tests an accessor, so it never fires: a
    manifest without a name makes an entry like any other. *)
Lemma workspaceEntries_returns dirs : workspaceEntries dirs = Return dirs.
Proof.
  induction dirs as [|[d c] rest IH]; cbn [workspaceEntries]; [reflexivity|].
  cbn [not_]. now rewrite IH.
Qed.

Lemma action_exit world options commandName env :
  includes (running_of env) commandName = true ->
  action world options commandName env = Exit 0.
Proof. intros H. unfold action. now rewrite H. Qed.

(** An invocation that is not listed goes on with its name listed; it
    builds the collection once the workspaces are delivered, and
    selects once the collection is built. *)
Lemma action_ran world options commandName env :
  includes (running_of env) commandName = false ->
  exists r,
    ran (action world options commandName env) = Some r
    /\ WURK_RUNNING_COMMANDS (env_after r)
       = Some (join (running_of env ++ [name_text commandName]))
    /\ constructed r
       = match getWorkspaces world with
         | Return dirs => Some (collection options env dirs)
         | Throw _ => None
         end
    /\ select_argument r
       = match constructed r with
         | Some c =>
           match new_WorkspaceCollection world c with
           | None => Some (selected options env)
           | Some _ => None
           end
         | None => None
         end.
Proof.
  intros H. unfold action. rewrite H.
  destruct (getWorkspaces world) as [dirs|m]; cbn [bind].
  2:{ eexists. cbn [ran env_after constructed select_argument with_running
                    WURK_RUNNING_COMMANDS]. auto. }
  rewrite workspaceEntries_returns.
  assert (F : forall r : Ran,
             WURK_RUNNING_COMMANDS (env_after r)
             = Some (join (running_of env ++ [name_text commandName])) ->
             constructed r = Some (collection options env dirs) ->
             select_argument r
             = match new_WorkspaceCollection world (collection options env dirs) with
               | None => Some (selected options env)
               | Some _ => None
               end ->
             forall o, ran o = Some r ->
             exists r0, ran o = Some r0
               /\ WURK_RUNNING_COMMANDS (env_after r0)
                  = Some (join (running_of env ++ [name_text commandName]))
               /\ constructed r0 = Some (collection options env dirs)
               /\ select_argument r0
                  = match constructed r0 with
                    | Some c =>
                      match new_WorkspaceCollection world c with
                      | None => Some (selected options env)
                      | Some _ => None
                      end
                    | None => None
                    end).
  { intros r E C S o R. exists r. rewrite C. auto. }
  destruct (new_WorkspaceCollection world (collection options env dirs)) as [m|] eqn:N.
  { eapply F; [| | |reflexivity]; reflexivity. }
  destruct (Run.select world (selected options env)) as [m|].
  { eapply F; [| | |reflexivity]; reflexivity. }
  destruct (init world) as [m|].
  { eapply F; [| | |reflexivity]; reflexivity. }
  destruct (script_given options) as [sc|].
  2:{ eapply F; [| | |reflexivity]; reflexivity. }
  destruct (bool_decide (sc ∈ root_scripts world)).
  2:{ eapply F; [| | |reflexivity]; reflexivity. }
  destruct (spawnPackageScript world sc (scriptArgs options)) as [m|];
    (eapply F; [| | |reflexivity]; reflexivity).
Qed.


(** The collection, when one is built. *)
Lemma action_collection world options commandName env c :
  collection_of (action world options commandName env) = Some c ->
  includes (running_of env) commandName = false
  /\ exists dirs, getWorkspaces world = Return dirs /\ c = collection options env dirs.
Proof.
  unfold collection_of. intros H.
  destruct (includes (running_of env) commandName) eqn:I.
  { rewrite (action_exit _ _ _ _ I) in H. discriminate. }
  split; [reflexivity|].
  destruct (action_ran world options commandName env I) as (r & R & _ & C & _).
  rewrite R, C in H.
  destruct (getWorkspaces world) as [dirs|m]; [|discriminate].
  injection H as <-. eauto.
Qed.

(** The selection, when one is made. *)
Lemma action_selection world options commandName env es :
  selection_of (action world options commandName env) = Some es ->
  es = selected options env.
Proof.
  unfold selection_of. intros H.
  destruct (includes (running_of env) commandName) eqn:I.
  { rewrite (action_exit _ _ _ _ I) in H. discriminate. }
  destruct (action_ran world options commandName env I) as (r & R & _ & _ & S).
  rewrite R, S in H.
  destruct (constructed r) as [c|]; [|discriminate].
  destruct (new_WorkspaceCollection world c); [discriminate|].
  now injection H as <-.
Qed.

(** C1: whenever the action builds the collection, it builds it with
    [forEachParallel] when the parallel flag is set (whatever the stream
    flag), [forEachStream] when only the stream flag is set, and
    [forEachSequential] when neither is.  It builds the collection in
    every invocation that passes the guard on the running commands and
    is given the workspaces, whether or not their manifests have a
    name, and in no other. *)
Theorem C1_default_iteration_method world options commandName env :
  let parallel := flag_of (parallel options) (WURK_PARALLEL env) in
  let stream := flag_of (stream options) (WURK_STREAM env) in
  let o := action world options commandName env in
  (forall c, collection_of o = Some c ->
     (parallel = true -> co_defaultIterationMethod c = forEachParallel)
     /\ (parallel = false -> stream = true ->
         co_defaultIterationMethod c = forEachStream)
     /\ (parallel = false -> stream = false ->
         co_defaultIterationMethod c = forEachSequential))
  /\ (forall dirs,
        includes (running_of env) commandName = false ->
        getWorkspaces world = Return dirs ->
        exists c, collection_of o = Some c /\ co_workspaces c = dirs)
  /\ (forall c, collection_of o = Some c ->
        includes (running_of env) commandName = false
        /\ getWorkspaces world = Return (co_workspaces c)).
Proof.
  intros parallel stream o. split; [|split].
  - intros c Hc. apply action_collection in Hc as (_ & dirs & _ & ->).
    cbn [collection co_defaultIterationMethod]. fold parallel stream.
    repeat split; intros; repeat match goal with E : _ = _ |- _ => rewrite E end;
      reflexivity.
  - intros dirs I G.
    destruct (action_ran world options commandName env I) as (r & R & _ & C & _).
    rewrite G in C. exists (collection options env dirs).
    unfold collection_of. fold o in R. rewrite R. auto.
  - intros c Hc. apply action_collection in Hc as (I & dirs & G & ->). auto.
Qed.

Lemma C1_witness :
  exists c,
    collection_of (action quiet both_flags (Some (of_string "build")) no_env) = Some c
    /\ co_workspaces c = [("packages/a", {| name_field := None |})]
    /\ co_defaultIterationMethod c = forEachParallel.
Proof.
  destruct (C1_default_iteration_method quiet both_flags (Some (of_string "build"))
              no_env) as (A & B & _).
  destruct (B _ eq_refl eq_refl) as (c & Hc & Hw).
  exists c. split; [exact Hc|]. split; [exact Hw|].
  exact (proj1 (A c Hc) eq_refl).
Defined.

(** *** Splitting [WURK_RUNNING_COMMANDS] *)

Example split_trims_inner_space :
  split (of_string " a ,  ,b ") = [of_string " a"; []; of_string "b "].
Proof. reflexivity. Qed.

Example split_empty : split [] = [[]].
Proof. reflexivity. Qed.

Example rejoin_normalises :
  join (split (of_string "build , test") ++ [lint]) = of_string "build,test,lint".
Proof. reflexivity. Qed.

Example nested_blocks_the_second_build :
  nested quiet no_env [build; lint; build; lint]
  = [(build, true); (lint, true); (build, false)].
Proof. reflexivity. Qed.

Lemma skip_space_length s : length (skip_space s) <= length s.
Proof.
  induction s as [|c s IH]; simpl; [lia|].
  destruct (is_space c); simpl; lia.
Qed.

Lemma match_separator_length s rest :
  match_separator s = Some rest -> length rest < length s.
Proof.
  unfold match_separator. intros H.
  pose proof (skip_space_length s) as Hs.
  destruct (skip_space s) as [|c r] eqn:E; [discriminate|].
  destruct (c =? comma)%N; [|discriminate].
  injection H as <-. pose proof (skip_space_length r). simpl in Hs. lia.
Qed.

Lemma comma_not_space : is_space comma = false.
Proof. reflexivity. Qed.

(** The fuel [split] supplies is enough: more changes nothing. *)
Lemma split_loop_fuel n : forall m piece s,
  length s <= n -> length s <= m ->
  split_loop n piece s = split_loop m piece s.
Proof.
  induction n as [|n IH]; intros m piece s Hn Hm.
  - destruct s; [|simpl in Hn; lia]. now destruct m.
  - destruct s as [|c s']; [now destruct m|].
    destruct m as [|m]; [simpl in Hm; lia|].
    simpl in Hn, Hm. cbn [split_loop].
    destruct (match_separator (c :: s')) as [rest|] eqn:E.
    + apply match_separator_length in E. simpl in E.
      f_equal. apply IH; lia.
    + apply IH; lia.
Qed.

Lemma sl_nil piece : sl piece [] = [piece].
Proof. reflexivity. Qed.

Lemma sl_cons piece c s' :
  sl piece (c :: s') =
  match match_separator (c :: s') with
  | Some rest => piece :: sl [] rest
  | None => sl (piece ++ [c]) s'
  end.
Proof.
  unfold sl. cbn [length split_loop].
  destruct (match_separator (c :: s')) as [rest|] eqn:E; [|reflexivity].
  apply match_separator_length in E. simpl in E.
  f_equal. apply split_loop_fuel; lia.
Qed.

Lemma split_sl s : split s = sl [] s.
Proof. reflexivity. Qed.

Lemma skip_space_in s h r : skip_space s = h :: r -> In h s.
Proof.
  induction s as [|c s IH]; simpl; [discriminate|].
  destruct (is_space c).
  - intros H. right. now apply IH.
  - intros H. injection H as -> _. now left.
Qed.

Lemma skip_space_no_comma s : no_comma s -> no_comma (skip_space s).
Proof.
  unfold no_comma. induction 1 as [|c s Hc Hs IH]; simpl; [constructor|].
  destruct (is_space c); [exact IH|]. now constructor.
Qed.

Lemma no_comma_no_match s : no_comma s -> match_separator s = None.
Proof.
  intros H. unfold match_separator.
  destruct (skip_space s) as [|h r] eqn:E; [reflexivity|].
  apply skip_space_in in E. unfold no_comma in H. rewrite Forall_forall in H.
  destruct (N.eqb_spec h comma) as [->|]; [|reflexivity].
  exfalso. apply (H comma); [now apply list_elem_of_In|reflexivity].
Qed.

(** A string without comma is one piece. *)
Lemma sl_no_comma x : forall piece, no_comma x -> sl piece x = [piece ++ x].
Proof.
  induction x as [|c x IH]; intros piece H.
  - now rewrite sl_nil, app_nil_r.
  - rewrite sl_cons, (no_comma_no_match _ H).
    unfold no_comma in H. apply Forall_cons in H as [_ H].
    rewrite IH by exact H. now rewrite <- app_assoc.
Qed.

Lemma rstrip_cons c x :
  rstrip (c :: x) <> [] -> rstrip (c :: x) = c :: rstrip x.
Proof.
  simpl. destruct (rstrip x); [|reflexivity].
  destruct (is_space c); [congruence|reflexivity].
Qed.

Lemma rstrip_nil_skip x s : rstrip x = [] -> skip_space (x ++ s) = skip_space s.
Proof.
  induction x as [|c x IH]; simpl; [reflexivity|].
  destruct (rstrip x) eqn:E; [|discriminate].
  destruct (is_space c); [|discriminate]. intros _. now apply IH.
Qed.

Lemma rstrip_skip_head x s :
  rstrip x <> [] -> exists h r, skip_space (x ++ s) = h :: r /\ In h x.
Proof.
  induction x as [|c x IH]; simpl; [congruence|].
  destruct (is_space c) eqn:Ec.
  - destruct (rstrip x) eqn:E; [congruence|]. intros _.
    destruct IH as (h & r & Hh & Hin); [congruence|].
    exists h, r. auto.
  - intros _. exists c, (x ++ s). auto.
Qed.

(** Up to the first comma: the piece loses its trailing white space and
    the white space after the comma is skipped. *)
Lemma sl_scan x : forall piece t,
  no_comma x ->
  sl piece (x ++ comma :: t) = (piece ++ rstrip x) :: sl [] (skip_space t).
Proof.
  induction x as [|c x IH]; intros piece t H.
  - cbn [app rstrip]. rewrite sl_cons, app_nil_r.
    unfold match_separator. cbn [skip_space]. rewrite comma_not_space.
    now rewrite N.eqb_refl.
  - cbn [app]. rewrite sl_cons.
    destruct (decide (rstrip (c :: x) = [])) as [E|E].
    + unfold match_separator.
      change (c :: x ++ comma :: t) with ((c :: x) ++ comma :: t).
      rewrite (rstrip_nil_skip _ _ E). cbn [skip_space].
      rewrite comma_not_space, N.eqb_refl, E, app_nil_r. reflexivity.
    + assert (Hm : match_separator ((c :: x) ++ comma :: t) = None).
      { destruct (rstrip_skip_head (c :: x) (comma :: t) E) as (h & r & Hh & Hin).
        unfold match_separator. rewrite Hh.
        destruct (N.eqb_spec h comma) as [->|]; [|reflexivity].
        exfalso. unfold no_comma in H. rewrite Forall_forall in H.
        apply (H comma); [now apply list_elem_of_In|reflexivity]. }
      change (c :: x ++ comma :: t) with ((c :: x) ++ comma :: t).
      rewrite Hm, (rstrip_cons _ _ E).
      unfold no_comma in H. apply Forall_cons in H as [_ H].
      rewrite IH by exact H. now rewrite <- app_assoc.
Qed.

(** What [split] gives back for a joined list: inner ends lose their
    white space. *)
Lemma join_cons x l : join (x :: l) = x ++ sep_join l.
Proof.
  revert x. induction l as [|y l IH]; intros x.
  - cbn. now rewrite app_nil_r.
  - change (join (x :: y :: l)) with (x ++ comma :: join (y :: l)).
    rewrite IH. reflexivity.
Qed.

Lemma skip_space_app_comma y t :
  skip_space (y ++ comma :: t) = skip_space y ++ comma :: t.
Proof.
  induction y as [|c y IH]; cbn [app skip_space].
  - now rewrite comma_not_space.
  - destruct (is_space c); [exact IH|reflexivity].
Qed.

Lemma skip_space_sep_join y l :
  skip_space (y ++ sep_join l) = skip_space y ++ sep_join l.
Proof.
  destruct l as [|z l]; cbn [sep_join flat_map].
  - now rewrite !app_nil_r.
  - apply skip_space_app_comma.
Qed.

Lemma sl_join l : forall x piece,
  no_comma x -> Forall no_comma l ->
  sl piece (x ++ sep_join l) = trimmed piece x l.
Proof.
  induction l as [|y l IH]; intros x piece Hx Hl.
  - cbn [sep_join flat_map trimmed]. rewrite app_nil_r. now apply sl_no_comma.
  - apply Forall_cons in Hl as [Hy Hl].
    cbn [sep_join flat_map trimmed]. cbn [app].
    rewrite sl_scan by exact Hx. f_equal.
    change (flat_map (fun y0 => comma :: y0) l) with (sep_join l).
    rewrite skip_space_sep_join. apply IH; [|exact Hl].
    now apply skip_space_no_comma.
Qed.


(** No piece of a split holds a comma. *)
Lemma split_loop_no_comma n : forall piece s,
  length s <= n -> no_comma piece -> Forall no_comma (split_loop n piece s).
Proof.
  induction n as [|n IH]; intros piece s Hn Hp.
  - destruct s; [|simpl in Hn; lia]. now constructor.
  - destruct s as [|c s']; [now constructor|].
    simpl in Hn. cbn [split_loop].
    destruct (match_separator (c :: s')) as [rest|] eqn:E.
    + apply match_separator_length in E. simpl in E.
      constructor; [exact Hp|]. apply IH; [lia|constructor].
    + apply IH; [lia|]. unfold no_comma. apply Forall_app. split; [exact Hp|].
      constructor; [|constructor]. intros ->.
      unfold match_separator in E. cbn [skip_space] in E.
      rewrite comma_not_space, N.eqb_refl in E. discriminate.
Qed.










Lemma plain_build : plain build.
Proof.
  unfold plain, no_comma. repeat split.
  repeat constructor; discriminate.
Qed.

Lemma plain_lint : plain lint.
Proof.
  unfold plain, no_comma. repeat split.
  repeat constructor; discriminate.
Qed.



(** *** The default selection *)

Import Workspaces.

Lemma select_wildcard glob private_token malformed (c : Collection) :
  Workspaces.select glob private_token malformed ["**"] c
  = Return (with_all
              (map (fun w => with_isSelected
                               (match_target c w
                                && existsb (fun e => matches glob private_token e w) ["**"]) w)
                   (all c)) c).
Proof. reflexivity. Qed.

(** C2: with no expression from the command line or the environment,
    every selection the action makes is made with the one expression
    ["**"], and it makes one in every invocation that passes the guard,
    is given the workspaces and has the collection built; the
    collection is built with the [includeRootWorkspace] of the options
    or the environment.  On a collection with that flag, selecting with
    ["**"] marks every non-root workspace, changes nothing else, and
    marks the root only if [includeRootWorkspace] is enabled. *)
Theorem C2_default_selection world options commandName env :
  expressions_of options env = [] ->
  let o := action world options commandName env in
  (forall es, selection_of o = Some es -> es = ["**"])
  /\ (forall dirs,
        includes (running_of env) commandName = false ->
        getWorkspaces world = Return dirs ->
        new_WorkspaceCollection world (collection options env dirs) = None ->
        selection_of o = Some ["**"])
  /\ forall c,
      collection_of o = Some c ->
      co_includeRootWorkspace c
      = flag_of (Run.includeRootWorkspace options) (WURK_INCLUDE_ROOT_WORKSPACE env)
      /\ forall glob private_token malformed (coll : Collection),
          Workspaces.includeRootWorkspace coll = co_includeRootWorkspace c ->
          exists coll',
            Workspaces.select glob private_token malformed ["**"] coll = Return coll'
            /\ map (with_isSelected false) (all coll')
               = map (with_isSelected false) (all coll)
            /\ (forall w, w ∈ all coll' -> isRoot w = false -> isSelected w = true)
            /\ (forall w, w ∈ all coll' -> isRoot w = true -> isSelected w = true ->
                co_includeRootWorkspace c = true).
Proof.
  intros He o.
  assert (Hs : selected options env = ["**"]) by (unfold selected; now rewrite He).
  split; [|split].
  - intros es H. apply action_selection in H. congruence.
  - intros dirs I G N.
    destruct (action_ran world options commandName env I) as (r & R & _ & C & S).
    rewrite G in C. rewrite C, N, Hs in S.
    unfold selection_of. fold o in R. now rewrite R.
  - intros c Hc. apply action_collection in Hc as (_ & dirs & _ & ->).
    split; [reflexivity|].
    intros glob private_token malformed coll Hc. rewrite select_wildcard.
    eexists. split; [reflexivity|]. cbn [all with_all].
    split; [|split].
    + rewrite map_map. apply map_ext. intros w. reflexivity.
    + intros w Hw Hroot. apply list_elem_of_fmap in Hw as (w0 & -> & _).
      cbn in *. unfold match_target, matches. rewrite Hroot. cbn.
      now rewrite !orb_true_r.
    + intros w Hw Hroot Hsel. apply list_elem_of_fmap in Hw as (w0 & -> & _).
      cbn in Hroot, Hsel. unfold match_target in Hsel. rewrite Hroot in Hsel.
      cbn in Hsel. rewrite <- Hc. apply andb_true_iff in Hsel as [Hsel _].
      exact Hsel.
Qed.

Lemma C2_witness :
  expressions_of no_options no_env = []
  /\ selection_of (action quiet no_options (Some build) no_env) = Some ["**"].
Proof.
  split; [reflexivity|].
  exact (proj1 (proj2 (C2_default_selection quiet no_options (Some build) no_env
                        eq_refl)) _ eq_refl eq_refl eq_refl).
Defined.

End RunFacts.

(** ** The filesystem publisher *)

Module PublishFacts.
Import Js Publish Samples.
Import Workspaces (StatusValue, pending, success, failure, skipped).

Section Publisher.

Variable semver : Semver.
Variable pm : PackageManager.
Variable git : option Git.
Variable published : gset string.
Variable covers : string -> string -> bool.
Variable pack_dry_run : completion (list string).
Variable Config : Type.
Variable set_dependency : DependencyType -> string -> string -> Config -> Config.
Variable remove_field : string -> Config -> Config.
Variable set_gitHead : string -> Config -> Config.
Variable stringify : Config -> string.
Variable spawn_npm : list string -> option string -> option string * completion unit.

Local Abbreviation validate := (validate semver pm git published covers pack_dry_run).
Local Abbreviation publish :=
  (publishFromFilesystem semver pm git published covers pack_dry_run
     set_dependency remove_field set_gitHead stringify spawn_npm).
Local Abbreviation prepare := (prepare git set_dependency remove_field set_gitHead).

(** [validate] sets a status exactly when it answers [false], and then
    to [skipped] with the reason of the case. *)
Lemma validate_cases w :
  match skip_reason pm w with
  | Some d => validate w = ([(skipped, Some d)], Return false)
  | None => fst (validate w) = [] /\ snd (validate w) <> Return false
  end.
Proof.
  unfold skip_reason, Publish.validate.
  destruct (isPrivate w); [reflexivity|].
  destruct (truthy (version w)); [|reflexivity]. cbn [negb].
  destruct (getMetadata pm (name w) (text (version w))) as [meta|].
  - rewrite bool_decide_eq_true_2 by eauto. reflexivity.
  - rewrite bool_decide_eq_false_2 by (intros [? ?]; discriminate).
    destruct (match git with Some g => getIsDirty g None | None => false end).
    + split; [reflexivity|discriminate].
    + split; [reflexivity|]. cbn [snd].
      destruct pack_dry_run as [packed|m]; cbn [bind]; [|discriminate].
      destruct (negb _); [discriminate|].
      destruct (validateDependencies _ _ _ _ _); cbn [bind]; discriminate.
Qed.

Lemma skip_reason_cases w :
  (skip_reason pm w = Some "private" <-> isPrivate w = true)
  /\ (skip_reason pm w = Some "unversioned"
      <-> isPrivate w = false /\ truthy (version w) = false)
  /\ (skip_reason pm w = Some "already published"
      <-> isPrivate w = false /\ truthy (version w) = true
          /\ is_Some (getMetadata pm (name w) (text (version w))))
  /\ (forall d, skip_reason pm w = Some d ->
      d = "private" \/ d = "unversioned" \/ d = "already published").
Proof.
  unfold skip_reason.
  assert (D : forall d : string,
             d = "private" \/ d = "unversioned" \/ d = "already published" ->
             forall e, Some d = Some e ->
             e = "private" \/ e = "unversioned" \/ e = "already published").
  { intros d Hd e He. now injection He as <-. }
  destruct (isPrivate w).
  { split; [|split; [|split]].
    - tauto.
    - split; [discriminate|intros [H _]; discriminate].
    - split; [discriminate|intros [H _]; discriminate].
    - apply D. tauto. }
  destruct (truthy (version w)); cbn [negb].
  2:{ split; [|split; [|split]].
      - split; discriminate.
      - tauto.
      - split; [discriminate|intros (_ & H & _); discriminate].
      - apply D. tauto. }
  destruct (bool_decide_reflect
              (is_Some (getMetadata pm (name w) (text (version w))))) as [Hm|Hm].
  - split; [|split; [|split]].
    + split; discriminate.
    + split; [discriminate|intros [_ H]; discriminate].
    + tauto.
    + apply D. tauto.
  - split; [|split; [|split]].
    + split; discriminate.
    + split; [discriminate|intros [_ H]; discriminate].
    + split; [discriminate|tauto].
    + discriminate.
Qed.

(** The publisher, case by case. *)
Lemma publish_cases options w config disk :
  let res := publish options w config disk in
  match validate w with
  | (calls, Throw m) =>
    res = {| outcome := Throw m; status_calls := (pending, None) :: calls;
             published_after := published; package_json := disk;
             config_after := config |}
  | (calls, Return false) =>
    res = {| outcome := Return tt; status_calls := (pending, None) :: calls;
             published_after := published; package_json := disk;
             config_after := config |}
  | (calls, Return true) =>
    if truthy disk then
      match snd (spawn_npm (npm_args options)
                   (Some (stringify (prepare options w config)))) with
      | Throw m =>
        res = {| outcome := Throw m; status_calls := (pending, None) :: calls;
                 published_after := published; package_json := disk;
                 config_after := prepare options w config |}
      | Return _ =>
        res = {| outcome := Return tt;
                 status_calls := (pending, None) :: calls
                                 ++ [(success, Some (success_detail options w))];
                 published_after := {[ name w ]} ∪ published;
                 package_json := disk;
                 config_after := prepare options w config |}
      end
    else
      res = {| outcome := Throw "failed to read package.json file";
               status_calls := (pending, None) :: calls;
               published_after := published; package_json := disk;
               config_after := prepare options w config |}
  end.
Proof.
  unfold publishFromFilesystem.
  destruct (validate w) as [calls [[|]|m]]; cbn [app]; try reflexivity.
  destruct (truthy disk); cbn [negb]; [|reflexivity].
  destruct (spawn_npm _ _) as [disk2 [u|m]]; reflexivity.
Qed.

(** The calls [validate] makes never set [success]. *)
Lemma validate_calls w :
  fst (validate w) = [] \/ exists d, validate w = ([(skipped, Some d)], Return false).
Proof.
  pose proof (validate_cases w) as H.
  destruct (skip_reason pm w) as [d|]; [right; eauto|left; tauto].
Qed.

(** C7: the publisher first sets [pending].  In the three validation
    cases (private; else without version; else already in the
    registry) it then sets [skipped] with the detail of the case,
    publishes nothing and returns; in no other case does it set
    [skipped].  Outside these cases the status stays at [pending] and
    the call throws when validation throws or [package.json] cannot be
    read; otherwise [npm publish] (or [npm pack]) is spawned on the
    prepared manifest, and the status becomes [success], with the
    workspace entered as published, exactly when that spawn returns: a
    spawn that throws leaves [pending]. *)
Theorem C7_publish_status options w config disk :
  let res := publish options w config disk in
  let spawned :=
    snd (spawn_npm (npm_args options)
           (Some (stringify (prepare options w config)))) in
  (exists calls, status_calls res = (pending, None) :: calls)
  /\ match skip_reason pm w with
     | Some d =>
       status_calls res = [(pending, None); (skipped, Some d)]
       /\ outcome res = Return tt
       /\ published_after res = published
       /\ package_json res = disk
     | None =>
       match snd (validate w) with
       | Throw m =>
         status_calls res = [(pending, None)]
         /\ published_after res = published
         /\ outcome res = Throw m
       | Return false => False
       | Return true =>
         if truthy disk then
           match spawned with
           | Return _ =>
             status_calls res
             = [(pending, None); (success, Some (success_detail options w))]
             /\ published_after res = {[ name w ]} ∪ published
             /\ outcome res = Return tt
           | Throw m =>
             status_calls res = [(pending, None)]
             /\ published_after res = published
             /\ outcome res = Throw m
           end
         else
           status_calls res = [(pending, None)]
           /\ published_after res = published
           /\ outcome res = Throw "failed to read package.json file"
       end
     end
  /\ hd_error (npm_args options)
     = Some (if toArchive options then "pack" else "publish")
  /\ (skip_reason pm w = Some "private" <-> isPrivate w = true)
  /\ (skip_reason pm w = Some "unversioned"
      <-> isPrivate w = false /\ truthy (version w) = false)
  /\ (skip_reason pm w = Some "already published"
      <-> isPrivate w = false /\ truthy (version w) = true
          /\ is_Some (getMetadata pm (name w) (text (version w))))
  /\ (forall d, skip_reason pm w = Some d ->
      d = "private" \/ d = "unversioned" \/ d = "already published").
Proof.
  intros res spawned.
  pose proof (publish_cases options w config disk) as P. fold res in P.
  pose proof (validate_cases w) as V.
  split; [|split; [|split; [reflexivity|exact (skip_reason_cases w)]]].
  - destruct (validate w) as [calls [[|]|m]].
    + destruct (truthy disk); [|rewrite P; eauto].
      destruct (snd (spawn_npm _ _)); rewrite P; eauto.
    + rewrite P; eauto.
    + rewrite P; eauto.
  - destruct (skip_reason pm w) as [d|].
    + rewrite V in P. rewrite P. cbn. auto.
    + destruct V as [Vc Vr].
      destruct (validate w) as [calls [[|]|m]]; cbn [fst snd] in Vc, Vr |- *;
        subst calls.
      * destruct (truthy disk).
        -- subst spawned. destruct (snd (spawn_npm _ _)); rewrite P; cbn; auto.
        -- rewrite P; cbn; auto.
      * congruence.
      * rewrite P; cbn; auto.
Qed.

(** C9: whatever the publisher does, the text of [package.json] on
    disk is afterwards the text it had before.  Once validation has
    passed and the saved text is there, a spawn that throws leaves the
    published set as it was and no [success] status; a spawn that
    returns adds the workspace to the set and sets [success]. *)
Theorem C9_manifest_restored options w config disk :
  let res := publish options w config disk in
  package_json res = disk
  /\ (forall calls,
      validate w = (calls, Return true) -> truthy disk = true ->
      match snd (spawn_npm (npm_args options)
                   (Some (stringify (prepare options w config)))) with
      | Throw m =>
        outcome res = Throw m
        /\ published_after res = published
        /\ (forall d, (success, d) ∉ status_calls res)
      | Return _ =>
        outcome res = Return tt
        /\ published_after res = {[ name w ]} ∪ published
        /\ last (status_calls res) = Some (success, Some (success_detail options w))
      end)
  /\ (forall m, outcome res = Throw m ->
      published_after res = published
      /\ forall d, (success, d) ∉ status_calls res).
Proof.
  intros res.
  pose proof (publish_cases options w config disk) as P. fold res in P.
  pose proof (validate_calls w) as V.
  split; [|split].
  - destruct (validate w) as [calls [[|]|m]]; [|now rewrite P..].
    destruct (truthy disk); [|now rewrite P].
    destruct (snd (spawn_npm _ _)); now rewrite P.
  - intros calls Hv Ht. rewrite Hv in P, V. rewrite Ht in P.
    destruct V as [V|[d V]]; [|discriminate]. cbn in V. subst calls.
    destruct (snd (spawn_npm _ _)); rewrite P; cbn.
    + auto.
    + split; [reflexivity|]. split; [reflexivity|].
      intros d Hd. apply elem_of_cons in Hd as [Hd|Hd]; [discriminate|inversion Hd].
  - intros m Hm.
    assert (Hnone : forall calls d,
               (fst (validate w) = calls) ->
               (success, d) ∉ (pending, None) :: calls).
    { intros calls d <- Hd. apply elem_of_cons in Hd as [Hd|Hd]; [discriminate|].
      destruct V as [V|[d' V]]; rewrite V in Hd; [inversion Hd|].
      cbn in Hd. apply elem_of_cons in Hd as [Hd|Hd]; [discriminate|inversion Hd]. }
    destruct (validate w) as [calls [[|]|m']].
    + destruct (truthy disk).
      * destruct (snd (spawn_npm _ _)); rewrite P in Hm |- *; cbn in Hm |- *;
          [discriminate|]. split; [reflexivity|]. intros d. now apply Hnone.
      * rewrite P. cbn. split; [reflexivity|]. intros d. now apply Hnone.
    + rewrite P in Hm. discriminate.
    + rewrite P. cbn. split; [reflexivity|]. intros d. now apply Hnone.
Qed.

Local Abbreviation validateDependency :=
  (validateDependency semver pm git published).

(** Dependency validation looks at the version and the privacy of the
    dependency before it looks at the range. *)
Lemma private_dependency_rejected link spec_name range version :
  is_dev (type link) = false ->
  spec link = SpecNpm spec_name range ->
  dep_version (dependency link) = Some version ->
  version <> "" ->
  dep_isPrivate (dependency link) = true ->
  validateDependency link = Throw "dependency is private".
Proof.
  intros Hd Hs Hv Hne Hp. unfold Publish.validateDependency.
  rewrite Hd, Hs, Hv, Hp.
  destruct (String.eqb_spec version ""); [contradiction|reflexivity].
Qed.


End Publisher.

Example validate_private_wins :
  validate semver_table registry_with_a None ∅ covers_all (Return []) pkg_private
  = ([(skipped, Some "private")], Return false).
Proof. reflexivity. Qed.

Example validate_already_published :
  validate semver_table registry_with_a None ∅ covers_all (Return []) pkg_a
  = ([(skipped, Some "already published")], Return false).
Proof. reflexivity. Qed.

Example validateDependency_min_version :
  Publish.validateDependency semver_table empty_registry None ∅
    (link_to utils_public "^1.0.0")
  = Throw "dependency version is not published".
Proof. reflexivity. Qed.

Example validate_fresh :
  validate semver_table empty_registry None ∅ covers_all (Return []) pkg_a
  = ([], Return true).
Proof. reflexivity. Qed.

Lemma C7_witness :
  let skipped_run :=
    publishFromFilesystem semver_table empty_registry None ∅ covers_all
      (Return []) set_dependency_text remove_field_text set_gitHead_text
      stringify_text npm_succeeds plain_options pkg_private "{}" (Some "{}") in
  let published_run :=
    publishFromFilesystem semver_table empty_registry None ∅ covers_all
      (Return []) set_dependency_text remove_field_text set_gitHead_text
      stringify_text npm_succeeds plain_options pkg_a "{}" (Some "{}") in
  let failed_run :=
    publishFromFilesystem semver_table empty_registry None ∅ covers_all
      (Return []) set_dependency_text remove_field_text set_gitHead_text
      stringify_text npm_fails plain_options pkg_a "{}" (Some "{}") in
  (status_calls skipped_run = [(pending, None); (skipped, Some "private")]
   /\ outcome skipped_run = Return tt
   /\ published_after skipped_run = ∅
   /\ package_json skipped_run = Some "{}")
  /\ (status_calls published_run
      = [(pending, None); (success, Some "publish 1.0.0")]
      /\ published_after published_run = {[ "pkg-a" ]} ∪ ∅
      /\ outcome published_run = Return tt)
  /\ (status_calls failed_run = [(pending, None)]
      /\ published_after failed_run = ∅
      /\ outcome failed_run = Throw "npm ERR!").
Proof.
  split; [|split].
  - exact (proj1 (proj2
      (C7_publish_status semver_table empty_registry None ∅ covers_all (Return [])
         string set_dependency_text remove_field_text set_gitHead_text stringify_text
         npm_succeeds plain_options pkg_private "{}" (Some "{}")))).
  - exact (proj1 (proj2
      (C7_publish_status semver_table empty_registry None ∅ covers_all (Return [])
         string set_dependency_text remove_field_text set_gitHead_text stringify_text
         npm_succeeds plain_options pkg_a "{}" (Some "{}")))).
  - exact (proj1 (proj2
      (C7_publish_status semver_table empty_registry None ∅ covers_all (Return [])
         string set_dependency_text remove_field_text set_gitHead_text stringify_text
         npm_fails plain_options pkg_a "{}" (Some "{}")))).
Defined.

Lemma C9_witness :
  let res := publishFromFilesystem semver_table empty_registry None ∅ covers_all
               (Return []) set_dependency_text remove_field_text set_gitHead_text
               stringify_text npm_fails plain_options pkg_a "{}" (Some "{}") in
  validate semver_table empty_registry None ∅ covers_all (Return []) pkg_a
  = ([], Return true)
  /\ truthy (Some "{}") = true
  /\ package_json res = Some "{}"
  /\ outcome res = Throw "npm ERR!"
  /\ published_after res = ∅.
Proof.
  intros res.
  pose proof (C9_manifest_restored semver_table empty_registry None ∅ covers_all
                (Return []) string set_dependency_text remove_field_text
                set_gitHead_text stringify_text npm_fails plain_options pkg_a
                "{}" (Some "{}")) as (A & B & _).
  specialize (B [] eq_refl eq_refl). destruct B as (B1 & B2 & _).
  split; [reflexivity|]. split; [reflexivity|].
  split; [exact A|]. split; [exact B1|exact B2].
Defined.



End PublishFacts.

(** ** The dependency-check command *)

Module DepCheckFacts.
Import Js DepCheck Samples.
Import Workspaces (StatusValue, pending, success, failure, skipped).

Section Hooks.

Variable ops : DependencySetOps.
Variable files : Files.
Variable spawn_npm : list string -> Z -> Z * completion unit.

Local Abbreviation each := (each ops files spawn_npm).
Local Abbreviation unused := (unused ops files).
Local Abbreviation each_all := (each_all ops files spawn_npm).
Local Abbreviation run := (run ops files spawn_npm).
Local Abbreviation each_until := (each_until ops files spawn_npm).
Local Abbreviation run_until := (run_until ops files spawn_npm).

Ltac in_list :=
  repeat first [apply list_elem_of_here | assumption | apply list_elem_of_further].

Ltac in_log := repeat split; intros; auto; in_list.

Lemma fold_info_fields who (l : list string) : forall st,
  let st' := fold_left (fun s d => info who (String.append "  - " d) s) l st in
  isFailed st' = isFailed st /\ exitCode st' = exitCode st
  /\ status_calls st' = status_calls st
  /\ (forall e, e ∈ log st -> e ∈ log st').
Proof.
  induction l as [|d l IH]; intros st; cbn [fold_left].
  - auto.
  - destruct (IH (info who (String.append "  - " d) st)) as (A & B & C & D).
    cbn zeta. rewrite A, B, C. cbn. repeat split; auto.
    intros e He. apply D. cbn. now apply list_elem_of_further.
Qed.

(** Without [--fix], a workspace with unused dependencies is marked and
    flagged, and its action returns. *)
Lemma each_unused w ds st :
  isSelected w = true -> unused w = Return ds -> ds_size ops ds <> 0 ->
  exists st', each false w st = (st', Return tt)
              /\ status_of (name w) st' = Some (failure, None)
              /\ isFailed st' = true
              /\ exitCode st' = exitCode st.
Proof.
  intros Hsel Hu Hn. unfold DepCheck.unused in Hu. unfold DepCheck.each.
  rewrite Hsel. cbn [negb].
  destruct (Nat.eqb (ds_size ops (ds_new ops _ _)) 0) eqn:E0.
  - injection Hu as <-. apply Nat.eqb_eq in E0. contradiction.
  - destruct (getSourceFilenames files (dir w)) as [filenames|m]; cbn [bind] in Hu;
      [|discriminate].
    rewrite Hu. apply Nat.eqb_neq in Hn. rewrite Hn. cbn [negb].
    eexists. split; [reflexivity|].
    match goal with
    | |- context [fold_left ?f ?l ?s] =>
      destruct (fold_info_fields (name w) l s) as (A & B & C & D)
    end.
    cbn zeta in A, B, C, D.
    split; [|split].
    + unfold status_of. cbn. now rewrite String.eqb_refl.
    + reflexivity.
    + cbn. rewrite B. reflexivity.
Qed.

(** What one action leaves behind, whatever its outcome: earlier log
    lines stay, a raised flag stays raised, and a selected workspace has
    logged that it is being checked. *)
Lemma each_keeps opts_fix w st :
  let st' := Command_each (Some (each opts_fix)) w st in
  (forall e, e ∈ log st -> e ∈ log st')
  /\ (isFailed st = true -> isFailed st' = true)
  /\ (isSelected w = true -> (name w, "Checking dependencies.") ∈ log st').
Proof.
  cbn zeta. unfold Command_each, DepCheck.each.
  destruct (isSelected w); cbn [negb].
  2:{ cbn. repeat split; auto. discriminate. }
  destruct (Nat.eqb (ds_size ops (ds_new ops _ _)) 0); [cbn; in_log|].
  destruct (getSourceFilenames files (dir w)) as [filenames|m]; [|cbn; in_log].
  destruct (scan ops files filenames _) as [ds|m]; [|cbn; in_log].
  destruct (Nat.eqb (ds_size ops ds) 0); [cbn; in_log|].
  destruct opts_fix; cbn [negb].
  - destruct (spawn_npm _ _) as [code [u|m]]; cbn; in_log.
  - match goal with
    | |- context [fold_left ?f ?l ?s] =>
      destruct (fold_info_fields (name w) l s) as (A & B & C & D)
    end.
    cbn zeta in A, B, C, D. cbn. repeat split; auto.
    + intros e He. apply D. cbn. in_list.
    + intros _. apply D. cbn. in_list.
Qed.

Lemma each_all_keeps opts_fix ws : forall st,
  (forall e, e ∈ log st -> e ∈ log (each_all opts_fix ws st))
  /\ (isFailed st = true -> isFailed (each_all opts_fix ws st) = true).
Proof.
  induction ws as [|w ws IH]; intros st; [cbn; auto|].
  unfold DepCheck.each_all. cbn [fold_left].
  destruct (each_keeps opts_fix w st) as (A & B & _). cbn zeta in A, B.
  destruct (IH (Command_each (Some (each opts_fix)) w st)) as (C & D).
  unfold DepCheck.each_all in C, D. split; auto.
Qed.

(** Every selected workspace is checked, whatever the others did. *)
Lemma each_all_runs opts_fix ws : forall st w,
  w ∈ ws -> isSelected w = true ->
  (name w, "Checking dependencies.") ∈ log (each_all opts_fix ws st).
Proof.
  induction ws as [|w0 ws IH]; intros st w Hin Hsel; [inversion Hin|].
  unfold DepCheck.each_all. cbn [fold_left].
  apply elem_of_cons in Hin as [->|Hin].
  - destruct (each_keeps opts_fix w0 st) as (_ & _ & C). cbn zeta in C.
    apply (each_all_keeps opts_fix ws). now apply C.
  - now apply IH.
Qed.

Lemma each_all_failed ws : forall st w ds,
  w ∈ ws -> isSelected w = true -> unused w = Return ds -> ds_size ops ds <> 0 ->
  isFailed (each_all false ws st) = true.
Proof.
  induction ws as [|w0 ws IH]; intros st w ds Hin Hsel Hu Hn; [inversion Hin|].
  unfold DepCheck.each_all. cbn [fold_left].
  apply elem_of_cons in Hin as [->|Hin].
  - destruct (each_unused w0 ds st Hsel Hu Hn) as (st' & E & _ & F & _).
    apply (each_all_keeps false ws). unfold Command_each, caught. now rewrite E.
  - eapply IH; eauto.
Qed.

Lemma exitCode_or_1_nonzero st : exitCode (exitCode_or_1 st) <> 0%Z.
Proof.
  unfold exitCode_or_1. cbn.
  destruct (Z.eqb_spec (exitCode st) 0); [discriminate|assumption].
Qed.

(** Without [--fix], an action whose scan completes returns, and the
    exit code is what it was. *)
Lemma each_returns w st :
  isSelected w = false \/ (exists ds, unused w = Return ds) ->
  exists st', each false w st = (st', Return tt) /\ exitCode st' = exitCode st.
Proof.
  unfold DepCheck.each, DepCheck.unused. intros [Hs|(ds & Hu)].
  - rewrite Hs. cbn [negb]. eauto.
  - destruct (isSelected w); cbn [negb]; [|eauto].
    destruct (Nat.eqb (ds_size ops (ds_new ops _ _)) 0); [eauto|].
    destruct (getSourceFilenames files (dir w)) as [filenames|m]; cbn [bind] in Hu;
      [|discriminate].
    rewrite Hu. destruct (Nat.eqb (ds_size ops ds) 0); [eauto|]. cbn [negb].
    eexists. split; [reflexivity|].
    match goal with
    | |- context [fold_left ?f ?l ?s] =>
      destruct (fold_info_fields (name w) l s) as (_ & B & _)
    end.
    cbn zeta in B. cbn. now rewrite B.
Qed.

Lemma Command_each_returns w st :
  isSelected w = false \/ (exists ds, unused w = Return ds) ->
  exitCode (Command_each (Some (each false)) w st) = exitCode st.
Proof.
  intros H. destruct (each_returns w st H) as (st' & E & X).
  unfold Command_each, caught. now rewrite E.
Qed.

(** As long as no action throws, nothing sets the exit code, and a
    runner that started goes through all the workspaces. *)
Lemma each_until_all stop ws : forall st,
  stop (exitCode st) = false ->
  (forall w, w ∈ ws -> isSelected w = false \/ exists ds, unused w = Return ds) ->
  each_until stop false ws st = (each_all false ws st, ws)
  /\ exitCode (each_all false ws st) = exitCode st.
Proof.
  induction ws as [|w ws IH]; intros st Hstop Hall; [split; reflexivity|].
  cbn [DepCheck.each_until]. rewrite Hstop.
  assert (X : exitCode (Command_each (Some (each false)) w st) = exitCode st).
  { apply Command_each_returns, Hall, list_elem_of_here. }
  destruct (IH (Command_each (Some (each false)) w st)) as [E X'].
  { now rewrite X. }
  { intros w' Hw'. apply Hall. now apply list_elem_of_further. }
  rewrite E. unfold DepCheck.each_all in *. cbn [fold_left].
  split; [reflexivity|]. now rewrite X'.
Qed.

(** C4: without [--fix], the action of a selected workspace with unused
    dependencies sets its status to [failure], raises the flag, leaves
    the exit code alone and returns, so a runner that has not stopped
    before it goes on to the workspaces after it.  In a run that no
    action throws in, the hook is called for every workspace, whether
    the runner stops on a set exit code or never; the exit code is then
    still what it was, the [after] hook makes it non-zero, and it
    leaves the state as it is when the flag was never raised. *)
Theorem C4_failure_is_deferred (stop : Z -> bool) (ws : list Workspace) (st : State)
    (w : Workspace) (ds : DependencySet ops) :
  w ∈ ws -> isSelected w = true ->
  unused w = Return ds -> ds_size ops ds <> 0 ->
  stop (exitCode st) = false ->
  (forall w', w' ∈ ws -> isSelected w' = true -> exists ds', unused w' = Return ds') ->
  (forall st0, exists st1,
      each false w st0 = (st1, Return tt)
      /\ status_of (name w) st1 = Some (failure, None)
      /\ isFailed st1 = true
      /\ exitCode st1 = exitCode st0)
  /\ (forall post st0,
      stop (exitCode st0) = false ->
      stop (exitCode (Command_each (Some (each false)) w st0)) = false
      /\ snd (each_until stop false (w :: post) st0)
         = w :: snd (each_until stop false post
                       (Command_each (Some (each false)) w st0)))
  /\ snd (each_until stop false ws st) = ws
  /\ (forall w', w' ∈ ws -> isSelected w' = true ->
      (name w', "Checking dependencies.")
      ∈ log (fst (each_until stop false ws st)))
  /\ isFailed (fst (each_until stop false ws st)) = true
  /\ exitCode (fst (each_until stop false ws st)) = exitCode st
  /\ exitCode (run_until stop false ws st)
     = (if (exitCode st =? 0)%Z then 1%Z else exitCode st)
  /\ exitCode (run_until stop false ws st) <> 0%Z
  /\ (forall ws' st', isFailed (fst (each_until stop false ws' st')) = false ->
      run_until stop false ws' st' = fst (each_until stop false ws' st')).
Proof.
  intros Hin Hsel Hu Hn Hstop Hall.
  assert (Hall' : forall w', w' ∈ ws ->
                    isSelected w' = false \/ exists ds', unused w' = Return ds').
  { intros w' Hw'. destruct (isSelected w') eqn:S'; [right|now left].
    now apply Hall. }
  destruct (each_until_all stop ws st Hstop Hall') as [E X].
  assert (F : isFailed (each_all false ws st) = true)
    by (eapply each_all_failed; eauto).
  assert (R : exitCode (run_until stop false ws st)
              = (if (exitCode st =? 0)%Z then 1%Z else exitCode st)).
  { unfold DepCheck.run_until, Command_after, after, caught. rewrite E. cbn [fst].
    rewrite F. unfold exitCode_or_1. cbn. now rewrite X. }
  split; [|split; [|split; [|split; [|split; [|split; [|split; [|split]]]]]]].
  - intros st0. now apply each_unused with ds.
  - intros post st0 Hs0.
    assert (X0 : exitCode (Command_each (Some (each false)) w st0) = exitCode st0).
    { apply Command_each_returns. right. eauto. }
    split; [now rewrite X0|].
    cbn [DepCheck.each_until]. rewrite Hs0.
    destruct (DepCheck.each_until ops files spawn_npm stop false post _)
      as [st' called]. reflexivity.
  - now rewrite E.
  - intros w' Hw' Hs'. rewrite E. cbn [fst]. now apply each_all_runs.
  - now rewrite E.
  - now rewrite E.
  - exact R.
  - rewrite R. destruct (Z.eqb_spec (exitCode st) 0); [discriminate|assumption].
  - intros ws' st' F'. unfold DepCheck.run_until, Command_after, after, caught.
    now rewrite F'.
Qed.

End Hooks.

Example sloppy_unused :
  unused list_set one_source sloppy = Return ["left-pad"].
Proof. reflexivity. Qed.

Lemma C4_witness :
  let stop := fun code => negb (code =? 0)%Z in
  sloppy ∈ [tidy; sloppy; tidy]
  /\ isSelected sloppy = true
  /\ unused list_set one_source sloppy = Return ["left-pad"]
  /\ stop (exitCode fresh_state) = false
  /\ snd (each_until list_set one_source npm_remove_ok stop false
            [tidy; sloppy; tidy] fresh_state)
     = [tidy; sloppy; tidy]
  /\ exitCode (fst (each_until list_set one_source npm_remove_ok stop false
                      [tidy; sloppy; tidy] fresh_state)) = 0%Z
  /\ exitCode (run_until list_set one_source npm_remove_ok stop false
                 [tidy; sloppy; tidy] fresh_state) = 1%Z.
Proof.
  intros stop.
  assert (H : sloppy ∈ [tidy; sloppy; tidy])
    by (apply list_elem_of_further, list_elem_of_here).
  assert (A : forall w', w' ∈ [tidy; sloppy; tidy] -> isSelected w' = true ->
                exists ds', unused list_set one_source w' = Return ds').
  { intros w' Hw' _.
    apply elem_of_cons in Hw' as [->|Hw']; [eexists; reflexivity|].
    apply elem_of_cons in Hw' as [->|Hw']; [eexists; reflexivity|].
    apply elem_of_cons in Hw' as [->|Hw']; [eexists; reflexivity|inversion Hw']. }
  assert (N : ds_size list_set (["left-pad"] : DependencySet list_set) <> 0)
    by discriminate.
  destruct (C4_failure_is_deferred list_set one_source npm_remove_ok stop
              [tidy; sloppy; tidy] fresh_state sloppy ["left-pad"]
              H eq_refl eq_refl N eq_refl A)
    as (_ & _ & C & _ & _ & X & R & _).
  split; [exact H|]. split; [reflexivity|]. split; [reflexivity|].
  split; [reflexivity|]. split; [exact C|]. split; [exact X|exact R].
Defined.

(** *** The promise chain *)

Example chain_of_two :
  fix_all 0 Promise_resolve two_arrivals
  = [Some {| workspace := "sloppy"; begins := 1; ends := 6;
             awaited := Rejected "npm ERR!" |};
     Some {| workspace := "messy"; begins := 6; ends := 9;
             awaited := Fulfilled |}].
Proof. reflexivity. Qed.

(** One step: the removal always runs, not before the chain so far has
    settled, and the workspace awaits its own result; the chain then
    settles when this removal ends. *)
Lemma fix_step_spec now a p :
  exists r, fix_step now a p = ({| settles_at := ends r; settled := result a |}, Some r)
            /\ workspace r = who a
            /\ begins r = Nat.max now (settles_at p)
            /\ ends r = begins r + duration a
            /\ awaited r = result a.
Proof.
  exists {| workspace := who a; begins := Nat.max now (settles_at p);
            ends := Nat.max now (settles_at p) + duration a;
            awaited := result a |}.
  unfold fix_step, then_, catch_. cbn.
  destruct (settled p); cbn; repeat split; reflexivity.
Qed.

Lemma fix_all_length arrivals : forall now p,
  length (fix_all now p arrivals) = length arrivals.
Proof.
  induction arrivals as [|a rest IH]; intros now p; [reflexivity|].
  cbn [fix_all]. destruct (fix_step (now + gap a) a p) as [next removal].
  cbn. now rewrite IH.
Qed.

(** No removal begins before the chain it was appended to has settled. *)
Lemma fix_all_after arrivals : forall now p i r,
  fix_all now p arrivals !! i = Some (Some r) -> settles_at p <= begins r.
Proof.
  induction arrivals as [|a rest IH]; intros now p i r H; [inversion H|].
  cbn [fix_all] in H.
  destruct (fix_step_spec (now + gap a) a p) as (r0 & E & _ & Hb & He & _).
  rewrite E in H. destruct i as [|i]; cbn in H.
  - injection H as <-. lia.
  - apply IH in H. cbn in H. lia.
Qed.

Lemma fix_all_own arrivals : forall now p i a,
  arrivals !! i = Some a ->
  exists r, fix_all now p arrivals !! i = Some (Some r)
            /\ workspace r = who a
            /\ awaited r = result a
            /\ ends r = begins r + duration a.
Proof.
  induction arrivals as [|a0 rest IH]; intros now p i a H; [inversion H|].
  cbn [fix_all].
  destruct (fix_step_spec (now + gap a0) a0 p) as (r0 & E & Hw & _ & He & Ha).
  rewrite E. destruct i as [|i]; cbn in H |- *.
  - injection H as <-. exists r0. auto.
  - now apply IH.
Qed.

Lemma fix_all_ordered arrivals : forall now p i j ri rj,
  i < j ->
  fix_all now p arrivals !! i = Some (Some ri) ->
  fix_all now p arrivals !! j = Some (Some rj) ->
  ends ri <= begins rj.
Proof.
  induction arrivals as [|a rest IH]; intros now p i j ri rj Hij Hi Hj;
    [inversion Hi|].
  cbn [fix_all] in Hi, Hj.
  destruct (fix_step_spec (now + gap a) a p) as (r0 & E & _).
  rewrite E in Hi, Hj.
  destruct j as [|j]; [lia|]. cbn in Hj.
  destruct i as [|i]; cbn in Hi.
  - injection Hi as <-. apply fix_all_after in Hj. exact Hj.
  - eapply IH; [|exact Hi|exact Hj]. lia.
Qed.

(** C6: for workspaces reaching the [--fix] statement in any order and
    at any times, every removal runs, no removal begins before the one
    chained before it has ended, and what a workspace awaits is the
    result of its own removal, whatever became of the earlier ones. *)
Theorem C6_removals_are_serialized (arrivals : list Arrival) (now : nat) (p : Promise) :
  let runs := fix_all now p arrivals in
  length runs = length arrivals
  /\ (forall i a, arrivals !! i = Some a ->
      exists r, runs !! i = Some (Some r)
                /\ workspace r = who a
                /\ awaited r = result a
                /\ ends r = begins r + duration a)
  /\ (forall i j ri rj, i < j ->
      runs !! i = Some (Some ri) -> runs !! j = Some (Some rj) ->
      ends ri <= begins rj).
Proof.
  cbn zeta. split; [apply fix_all_length|]. split.
  - intros i a. apply fix_all_own.
  - apply fix_all_ordered.
Qed.

Lemma C6_witness :
  exists ri rj,
    fix_all 0 Promise_resolve two_arrivals !! 0 = Some (Some ri)
    /\ fix_all 0 Promise_resolve two_arrivals !! 1 = Some (Some rj)
    /\ awaited ri = Rejected "npm ERR!"
    /\ awaited rj = Fulfilled
    /\ ends ri <= begins rj.
Proof.
  eexists. eexists. split; [reflexivity|]. split; [reflexivity|].
  split; [reflexivity|]. split; [reflexivity|].
  refine (proj2 (proj2 (C6_removals_are_serialized two_arrivals 0 Promise_resolve))
            0 1 _ _ _ eq_refl eq_refl).
  lia.
Defined.

End DepCheckFacts.

(** ** The version command *)

Module VersionFacts.
Import Workspaces Version Samples.

(** *** The scheduler visits a snapshot *)

Lemma forEach_loop_visits {A} (callback : Workspace -> A -> Workspace * A * option string)
    visit ws : forall acc,
  Forall2 (fun w w' => if visit w : bool then exists a, w' = settle (callback w a)
                       else w' = w)
          ws (fst (fst (forEach_loop callback visit ws acc))).
Proof.
  induction ws as [|w ws IH]; intros acc; cbn [forEach_loop]; [constructor|].
  destruct (visit w) eqn:V.
  - specialize (IH (snd (fst (callback w acc)))).
    destruct (forEach_loop callback visit ws _) as [[rest' acc''] failed].
    cbn in *. constructor; [|exact IH]. rewrite V. eauto.
  - specialize (IH acc).
    destruct (forEach_loop callback visit ws acc) as [[rest' acc'] failed].
    cbn in *. constructor; [|exact IH]. now rewrite V.
Qed.

Lemma forEach_visits {A} (callback : Workspace -> A -> Workspace * A * option string)
    c acc :
  let c' := fst (fst (forEach callback c acc)) in
  Forall2 (fun w w' => if is_iterated c w then exists a, w' = settle (callback w a)
                       else w' = w)
          (all c) (all c')
  /\ links c' = links c
  /\ dependencies_enabled c' = dependencies_enabled c
  /\ dependents_enabled c' = dependents_enabled c.
Proof.
  cbn zeta. unfold forEach.
  pose proof (forEach_loop_visits callback (is_iterated c) (all c) acc) as H.
  destruct (forEach_loop callback (is_iterated c) (all c) acc) as [[ws acc'] failed].
  cbn in *. auto.
Qed.

(** With both closures off the scheduler visits the flagged workspaces
    and no other. *)
Lemma is_iterated_plain c w :
  dependencies_enabled c = false -> dependents_enabled c = false ->
  is_iterated c w = isSelected w.
Proof.
  intros H1 H2. unfold is_iterated. rewrite H1, H2. cbn.
  now rewrite !orb_false_r.
Qed.

Lemma is_iterated_selected c w : isSelected w = true -> is_iterated c w = true.
Proof. intros H. unfold is_iterated. now rewrite H. Qed.

Section Action.

Variable Change : Type.
Variable each : option (Workspace -> Config * list Change).
Variable sync : Workspace -> Config * list Change.
Variable isDirty : Workspace -> bool.
Variable writeConfig : Workspace -> option string.
Variable writeChangelog : Workspace -> list Change -> option string.
Variable changelog : bool.

Local Abbreviation collect := (collect Change each sync).
Local Abbreviation reselect := (reselect isDirty).
Local Abbreviation write := (write Change writeConfig writeChangelog changelog).
Local Abbreviation action :=
  (action Change each sync isDirty writeConfig writeChangelog changelog).


Lemma reselect_clean w u :
  isDirty w = false ->
  settle (reselect w u)
  = if cfg_isModified (config w) then with_isSelected true w
    else with_isSelected false (status_set skipped (Some "no modifications") w).
Proof.
  intros H. unfold Version.reselect, settle. rewrite H.
  destruct (cfg_isModified (config w)); reflexivity.
Qed.






(** The second pass, workspace by workspace: a dirty tree makes the
    callback throw before it touches the flag, and the scheduler
    records the failure. *)
Lemma reselect_settled w u :
  settle (reselect w u)
  = if isDirty w
    then status_set failure (Some "versioning requires a clean git repository") w
    else if cfg_isModified (config w) then with_isSelected true w
    else with_isSelected false (status_set skipped (Some "no modifications") w).
Proof.
  unfold Version.reselect, settle. destruct (isDirty w); [reflexivity|].
  destruct (cfg_isModified (config w)); reflexivity.
Qed.


Lemma status_set_config v d w : config (status_set v d w) = config w.
Proof. unfold status_set. now destruct (is_terminal _). Qed.

Lemma status_set_pending v d w :
  status_value (status w) = pending ->
  status (status_set v (Some d) w) = {| status_value := v; status_detail := Some d |}.
Proof. unfold status_set. intros ->. reflexivity. Qed.


(** The second pass, on clean trees. *)
Lemma reselect_pass (visit : Workspace -> bool) l1 l2 :
  (forall w, w ∈ l1 -> visit w = true -> isDirty w = false) ->
  (forall w, visit w = false -> isSelected w = false) ->
  Forall2 (fun w w' => if visit w then exists a, w' = settle (reselect w a)
                       else w' = w) l1 l2 ->
  Forall2 (fun w1 w2 =>
             if visit w1 then
               if cfg_isModified (config w1) then w2 = with_isSelected true w1
               else w2 = with_isSelected false
                           (status_set skipped (Some "no modifications") w1)
             else w2 = w1 /\ isSelected w1 = false) l1 l2.
Proof.
  intros Hc Hv H. induction H as [|w1 w2 l1 l2 H _ IH]; [constructor|].
  constructor.
  - destruct (visit w1) eqn:V.
    + destruct H as [a ->]. rewrite reselect_settled.
      rewrite (Hc w1) by (apply list_elem_of_here || exact V).
      destruct (cfg_isModified (config w1)); reflexivity.
    + split; [exact H|]. now apply Hv.
  - apply IH. intros w Hw. apply Hc. now apply list_elem_of_further.
Qed.

Lemma not_iterated_not_selected c w : is_iterated c w = false -> isSelected w = false.
Proof.
  unfold is_iterated. intros H.
  apply orb_false_iff in H as [H _]. apply orb_false_iff in H as [H _]. exact H.
Qed.


End Action.



End VersionFacts.

(** * Further properties of the code *)

(** ** Package-manager detection *)

Module PmWalkFacts.
Import Js Pm PmWalk Samples Samples2.

Lemma take_not_at_app n rest :
  take_not_at n = n ->
  rest = "" \/ (exists v, rest = String "@" v) ->
  take_not_at (String.append n rest) = n.
Proof.
  induction n as [|c n IH]; intros Hn Hr.
  - destruct Hr as [->|[v ->]]; reflexivity.
  - change (String.append (String c n) rest) with (String c (String.append n rest)).
    cbn [take_not_at] in Hn |- *.
    destruct (Ascii.eqb c "@"); [discriminate|].
    injection Hn as Hn. f_equal. now apply IH.
Qed.

(** X1: a [packageManager] field whose value is a name, alone or
    followed by [@] and anything, decides by the name alone: neither
    the [workspaces] field nor the lock files are looked at, and a name
    other than npm, pnpm and yarn is an error. *)
Theorem packageManager_field_decides (d : Dir) (c : Config) (n rest : string) :
  package_json d = Some c ->
  packageManager c = Some (String.append n rest) ->
  take_not_at n = n -> n <> "" ->
  rest = "" \/ (exists v, rest = String "@" v) ->
  tryCreatePackageManager d
  = if String.eqb n "npm" then Return (Some (Npm (dir d)))
    else if String.eqb n "pnpm" then Return (Some (Pnpm (dir d)))
    else if String.eqb n "yarn" then Return (Some (Yarn (dir d)))
    else Throw "unsupported package manager".
Proof.
  intros Hc Hpm Hn Hne Hr. unfold tryCreatePackageManager, exec_name.
  rewrite Hc, Hpm, (take_not_at_app n rest Hn Hr).
  destruct n; [contradiction|reflexivity].
Qed.

Lemma packageManager_field_decides_witness :
  tryCreatePackageManager (dir_at repo_fs ["repo"]) = Return (Some (Pnpm "/repo")).
Proof.
  refine (packageManager_field_decides (dir_at repo_fs ["repo"]) root_manifest
            "pnpm" "@8.6.0" eq_refl eq_refl eq_refl _ _).
  - discriminate.
  - right. eexists. reflexivity.
Defined.

Lemma tryCreate_rootDir d pm :
  tryCreatePackageManager d = Return (Some pm) -> rootDir pm = dir d.
Proof.
  unfold tryCreatePackageManager.
  destruct (package_json d) as [c|]; [|discriminate].
  destruct (packageManager c) as [v|].
  - destruct (exec_name v) as [n|]; [|discriminate].
    destruct (String.eqb n "npm"); [intros H; now injection H as <-|].
    destruct (String.eqb n "pnpm"); [intros H; now injection H as <-|].
    destruct (String.eqb n "yarn"); [intros H; now injection H as <-|discriminate].
  - destruct (workspaces_exists c).
    + destruct (Js.loose_ne_null _); intros H; now injection H as <-.
    + destruct (pnpm_lock d); [intros H; now injection H as <-|discriminate].
Qed.

(** Directories that are no root are walked past. *)
Lemma walk_past fs cwd : forall k,
  k <= length cwd ->
  (forall j, j < k ->
     tryCreatePackageManager (dir_at fs (drop j cwd)) = Return None) ->
  createPackageManager fs cwd = createPackageManager fs (drop k cwd).
Proof.
  induction cwd as [|s cwd IH]; intros k Hk Hnone.
  - now rewrite drop_nil.
  - destruct k as [|k]; [reflexivity|].
    cbn [createPackageManager drop].
    pose proof (Hnone 0 ltac:(lia)) as H0. cbn [drop] in H0. rewrite H0.
    apply IH; [simpl in Hk; lia|].
    intros j Hj. apply (Hnone (S j)). lia.
Qed.

(** X2: the package manager found is that of the nearest directory, from
    the working directory upwards, in which detection succeeds: its root
    is that directory, and in every directory below it detection found
    nothing. *)
Theorem createPackageManager_nearest (fs : path -> Probe) (cwd : path)
    (pm : PackageManager) :
  createPackageManager fs cwd = Return pm ->
  exists k, k <= length cwd
    /\ rootDir pm = render (drop k cwd)
    /\ tryCreatePackageManager (dir_at fs (drop k cwd)) = Return (Some pm)
    /\ forall j, j < k ->
         tryCreatePackageManager (dir_at fs (drop j cwd)) = Return None.
Proof.
  induction cwd as [|s cwd IH]; cbn [createPackageManager].
  - destruct (tryCreatePackageManager (dir_at fs [])) as [[pm'|]|m] eqn:E;
      [|discriminate..].
    intros H. injection H as ->. exists 0. cbn [drop].
    split; [lia|]. split; [apply (tryCreate_rootDir _ _ E)|].
    split; [exact E|]. intros j Hj. lia.
  - destruct (tryCreatePackageManager (dir_at fs (s :: cwd))) as [[pm'|]|m] eqn:E;
      [| |discriminate].
    + intros H. injection H as ->. exists 0. cbn [drop].
      split; [lia|]. split; [apply (tryCreate_rootDir _ _ E)|].
      split; [exact E|]. intros j Hj. lia.
    + intros H. destruct (IH H) as (k & Hk & Hr & Ht & Hn).
      exists (S k). cbn [drop length]. split; [lia|]. split; [exact Hr|].
      split; [exact Ht|]. intros [|j] Hj; [exact E|]. apply Hn. lia.
Qed.

Lemma createPackageManager_nearest_witness :
  createPackageManager flat_fs ["a"; "repo"] = Return (Pnpm "/repo")
  /\ exists k, rootDir (Pnpm "/repo") = render (drop k ["a"; "repo"]).
Proof.
  split; [reflexivity|].
  destruct (createPackageManager_nearest flat_fs ["a"; "repo"] (Pnpm "/repo") eq_refl)
    as (k & _ & Hr & _).
  exists k. exact Hr.
Defined.

(** X3: the walk stops at the first directory whose [package.json]
    cannot be read or names an unknown package manager, with that
    error, whatever lies above it; and it ends with "could not determine
    package manager" when it has passed the root. *)
Theorem createPackageManager_fails (fs : path -> Probe) (cwd : path) (k : nat) :
  k <= length cwd ->
  (forall j, j < k ->
     tryCreatePackageManager (dir_at fs (drop j cwd)) = Return None) ->
  (forall m, tryCreatePackageManager (dir_at fs (drop k cwd)) = Throw m ->
             createPackageManager fs cwd = Throw m)
  /\ (k = length cwd ->
      tryCreatePackageManager (dir_at fs []) = Return None ->
      createPackageManager fs cwd = Throw "could not determine package manager").
Proof.
  intros Hk Hnone. rewrite (walk_past fs cwd k Hk Hnone). split.
  - intros m Hm. destruct (drop k cwd); cbn [createPackageManager]; now rewrite Hm.
  - intros -> Hroot. rewrite drop_all. cbn [createPackageManager]. now rewrite Hroot.
Qed.

Lemma createPackageManager_fails_witness :
  createPackageManager repo_fs ["a"; "packages"; "repo"] = Throw "ENOENT".
Proof.
  refine (proj1 (createPackageManager_fails repo_fs ["a"; "packages"; "repo"] 1 _ _)
            "ENOENT" eq_refl).
  - cbn. lia.
  - intros [|j] Hj; [reflexivity|lia].
Defined.

End PmWalkFacts.

(** ** The runner of a parsed command line *)

Module CliRunFacts.
Import Js CliRun Samples2.

Section Runner.

Variable S : Type.

Lemma run_unfold n actions commands entries (st : S) tr :
  run (MkCli n actions commands) (MkResult entries) st tr
  = match run_actions n actions (MkResult entries) [] st tr with
    | (st1, tr1, Throw m) => (st1, tr1, Throw m)
    | (st1, tr1, Return cleanupActions) =>
      match run_commands run commands entries st1 tr1 with
      | (st2, tr2, Throw m) => (st2, tr2, Throw m)
      | (st2, tr2, Return _) =>
        run_cleanups n cleanupActions (MkResult entries) st2 tr2
      end
    end.
Proof.
  cbn [run].
  destruct (run_actions n actions (MkResult entries) [] st tr) as [[st1 tr1] [cl|m]];
    [|reflexivity].
  match goal with
  | |- match ?f entries st1 tr1 with _ => _ end = _ =>
    assert (E : forall es s t, f es s t = run_commands run commands es s t)
  end.
  { induction es as [|[cn [r|]] rest IH]; intros s t; cbn [run_commands].
    - reflexivity.
    - destruct (find _ commands) as [command|]; [|reflexivity].
      destruct (run command r s t) as [[s' t'] [u|m]]; [apply IH|reflexivity].
    - apply IH. }
  now rewrite E.
Qed.

Lemma run_actions_app n pre post result : forall cl (st : S) tr,
  run_actions n (pre ++ post) result cl st tr
  = match run_actions n pre result cl st tr with
    | (st1, tr1, Return cl1) => run_actions n post result cl1 st1 tr1
    | (st1, tr1, Throw m) => (st1, tr1, Throw m)
    end.
Proof.
  induction pre as [|[l a] pre IH]; intros cl st tr; cbn [app run_actions];
    [reflexivity|].
  destruct (a result st) as [st' [c|m]]; [apply IH|reflexivity].
Qed.

(** The first loop calls the actions in order and registers the
    clean-ups in front of the list. *)
Lemma run_actions_trace n actions result : forall cl (st : S) tr st' tr' cl',
  run_actions n actions result cl st tr = (st', tr', Return cl') ->
  tr' = tr ++ map (Acted n) (map fst actions)
  /\ exists registered,
       map fst cl' = rev registered ++ map fst cl
       /\ sublist registered (map fst actions).
Proof.
  induction actions as [|[l a] actions IH]; intros cl st tr st' tr' cl' H;
    cbn [run_actions] in H.
  - injection H as <- <- <-. rewrite app_nil_r. split; [reflexivity|].
    exists []. split; [reflexivity|constructor].
  - destruct (a result st) as [st1 [c|m]]; [|discriminate].
    apply IH in H as (-> & registered & Hcl & Hsub).
    split; [now rewrite <- app_assoc|].
    destruct c as [f|].
    + exists (l :: registered). cbn [map fst rev] in *.
      split; [now rewrite Hcl, <- app_assoc|now constructor].
    + exists registered. split; [exact Hcl|now constructor].
Qed.

Lemma run_actions_only_acts n actions result : forall cl (st : S) tr st' tr' r,
  run_actions n actions result cl st tr = (st', tr', r) ->
  exists labels, tr' = tr ++ map (Acted n) labels.
Proof.
  induction actions as [|[l a] actions IH]; intros cl st tr st' tr' r H;
    cbn [run_actions] in H.
  - injection H as <- <- <-. exists []. now rewrite app_nil_r.
  - destruct (a result st) as [st1 [c|m]].
    + apply IH in H as (labels & ->). exists (l :: labels).
      now rewrite <- app_assoc.
    + injection H as <- <- <-. exists [l]. reflexivity.
Qed.

Lemma run_cleanups_trace n cl result : forall (st : S) tr st' tr',
  run_cleanups n cl result st tr = (st', tr', Return tt) ->
  tr' = tr ++ map (Cleaned n) (map fst cl).
Proof.
  induction cl as [|[l f] cl IH]; intros st tr st' tr' H; cbn [run_cleanups] in H.
  - injection H as <- <-. now rewrite app_nil_r.
  - destruct (f result st) as [st1 [u|m]]; [|discriminate].
    apply IH in H as ->. now rewrite <- app_assoc.
Qed.

Lemma run_cleanups_extends n cl result : forall (st : S) tr,
  exists ext, snd (fst (run_cleanups n cl result st tr)) = tr ++ ext.
Proof.
  induction cl as [|[l f] cl IH]; intros st tr; cbn [run_cleanups].
  - exists []. now rewrite app_nil_r.
  - destruct (f result st) as [st1 [u|m]].
    + destruct (IH st1 (tr ++ [Cleaned n l])) as [ext E]. rewrite E.
      eexists. now rewrite <- app_assoc.
    + eexists. reflexivity.
Qed.

Lemma run_commands_extends runner commands entries :
  (forall cn c r (st : S) tr, In (cn, Some r) entries ->
     exists ext, snd (fst (runner c r st tr)) = tr ++ ext) ->
  forall st tr,
    exists ext, snd (fst (run_commands runner commands entries st tr)) = tr ++ ext.
Proof.
  induction entries as [|[cn [r|]] rest IH]; intros Hr st tr; cbn [run_commands].
  - exists []. now rewrite app_nil_r.
  - destruct (find _ commands) as [command|].
    + destruct (Hr cn command r st tr (or_introl eq_refl)) as [ext E].
      destruct (runner command r st tr) as [[s' t'] [u|m]]; cbn in E; subst t'.
      * destruct (IH (fun cn' c r' s t H => Hr cn' c r' s t (or_intror H))
                     s' (tr ++ ext)) as [ext' E'].
        rewrite E'. eexists. now rewrite <- app_assoc.
      * eexists. reflexivity.
    + exists []. now rewrite app_nil_r.
  - apply IH. intros cn' c r' s t H. apply (Hr cn' c r' s t). now right.
Qed.

Lemma size_in cn r entries :
  In (cn, Some r) entries -> size r < size (MkResult entries).
Proof.
  cbn [size]. induction entries as [|[cn' [r'|]] rest IH]; intros H.
  - inversion H.
  - destruct H as [H|H].
    + injection H as _ ->. lia.
    + specialize (IH H). lia.
  - destruct H as [H|H]; [discriminate|]. specialize (IH H). lia.
Qed.

(** The trace only grows. *)
Lemma run_extends : forall result cli (st : S) tr,
  exists ext, snd (fst (run cli result st tr)) = tr ++ ext.
Proof.
  intros result. remember (size result) as k eqn:Hk.
  revert result Hk. induction k as [k IHk] using lt_wf_ind.
  intros [entries] Hk [n actions commands] st tr. rewrite run_unfold.
  destruct (run_actions n actions (MkResult entries) [] st tr)
    as [[st1 tr1] r] eqn:Ea.
  destruct (run_actions_only_acts _ _ _ _ _ _ _ _ _ Ea) as (labels & ->).
  destruct r as [cl|m]; [|eexists; reflexivity].
  destruct (run_commands_extends run commands entries) with
    (st := st1) (tr := tr ++ map (Acted n) labels) as [ext E].
  { intros cn c r s t Hin. apply (IHk (size r)); [|reflexivity].
    subst k. now apply size_in with cn. }
  destruct (run_commands run commands entries st1 _) as [[st2 tr2] [u|m]];
    cbn in E; subst tr2.
  - destruct (run_cleanups_extends n cl (MkResult entries) st2
                ((tr ++ map (Acted n) labels) ++ ext)) as [ext' E'].
    rewrite E'. eexists. now rewrite <- !app_assoc.
  - eexists. cbn. now rewrite <- app_assoc.
Qed.

(** The calls are entered behind the trace so far, whatever it holds. *)
Lemma run_actions_prefix n actions result : forall cl (st : S) tr,
  run_actions n actions result cl st tr
  = (fst (fst (run_actions n actions result cl st [])),
     tr ++ snd (fst (run_actions n actions result cl st [])),
     snd (run_actions n actions result cl st [])).
Proof.
  induction actions as [|[l a] actions IH]; intros cl st tr; cbn [run_actions].
  - cbn. now rewrite app_nil_r.
  - destruct (a result st) as [st' [c|m]]; [|reflexivity].
    rewrite (IH _ st' (tr ++ [Acted n l])), (IH _ st' ([] ++ [Acted n l])).
    cbn [fst snd app]. now rewrite <- app_assoc.
Qed.

Lemma run_cleanups_prefix n cl result : forall (st : S) tr,
  run_cleanups n cl result st tr
  = (fst (fst (run_cleanups n cl result st [])),
     tr ++ snd (fst (run_cleanups n cl result st [])),
     snd (run_cleanups n cl result st [])).
Proof.
  induction cl as [|[l f] cl IH]; intros st tr; cbn [run_cleanups].
  - cbn. now rewrite app_nil_r.
  - destruct (f result st) as [st' [u|m]]; [|reflexivity].
    rewrite (IH st' (tr ++ [Cleaned n l])), (IH st' ([] ++ [Cleaned n l])).
    cbn [fst snd app]. now rewrite <- app_assoc.
Qed.

Lemma run_commands_prefix runner commands entries :
  (forall cn c r (st : S) tr, In (cn, Some r) entries ->
     runner c r st tr
     = (fst (fst (runner c r st [])), tr ++ snd (fst (runner c r st [])),
        snd (runner c r st []))) ->
  forall st tr,
    run_commands runner commands entries st tr
    = (fst (fst (run_commands runner commands entries st [])),
       tr ++ snd (fst (run_commands runner commands entries st [])),
       snd (run_commands runner commands entries st [])).
Proof.
  induction entries as [|[cn [r|]] rest IH]; intros Hr st tr; cbn [run_commands].
  - cbn. now rewrite app_nil_r.
  - destruct (find _ commands) as [command|]; [|cbn; now rewrite app_nil_r].
    rewrite (Hr cn command r st tr (or_introl eq_refl)).
    destruct (runner command r st []) as [[s' t'] [u|m]]; cbn [fst snd];
      [|reflexivity].
    assert (Hr' : forall cn' c r' (s : S) t, In (cn', Some r') rest ->
                    runner c r' s t
                    = (fst (fst (runner c r' s [])), t ++ snd (fst (runner c r' s [])),
                       snd (runner c r' s [])))
      by (intros cn' c r' s t H; apply (Hr cn' c r' s t); now right).
    rewrite (IH Hr' s' (tr ++ t')), (IH Hr' s' t'). cbn [fst snd].
    now rewrite <- app_assoc.
  - apply IH. intros cn' c r' s t H. apply (Hr cn' c r' s t). now right.
Qed.

Lemma run_prefix : forall result cli (st : S) tr,
  run cli result st tr
  = (fst (fst (run cli result st [])), tr ++ snd (fst (run cli result st [])),
     snd (run cli result st [])).
Proof.
  intros result. remember (size result) as k eqn:Hk.
  revert result Hk. induction k as [k IHk] using lt_wf_ind.
  intros [entries] Hk [n actions commands] st tr. rewrite !run_unfold.
  rewrite (run_actions_prefix n actions (MkResult entries) [] st tr).
  destruct (run_actions n actions (MkResult entries) [] st [])
    as [[st1 t1] [cl|m]]; cbn [fst snd]; [|reflexivity].
  assert (Hr : forall cn c r (s : S) t, In (cn, Some r) entries ->
                 run c r s t
                 = (fst (fst (run c r s [])), t ++ snd (fst (run c r s [])),
                    snd (run c r s []))).
  { intros cn c r s t Hin. apply (IHk (size r)); [|reflexivity].
    subst k. now apply size_in with cn. }
  rewrite (run_commands_prefix run commands entries Hr st1 (tr ++ t1)),
          (run_commands_prefix run commands entries Hr st1 t1).
  destruct (run_commands run commands entries st1 []) as [[st2 t2] [u|m]];
    cbn [fst snd]; [|now rewrite <- app_assoc].
  rewrite (run_cleanups_prefix n cl (MkResult entries) st2 ((tr ++ t1) ++ t2)),
          (run_cleanups_prefix n cl (MkResult entries) st2 (t1 ++ t2)).
  cbn [fst snd]. now rewrite <- !app_assoc.
Qed.

(** The first loop registers, in front of the list, the clean-up of
    every action that hands one back. *)
Lemma run_actions_registering n actions result : forall cl (st : S) tr st' tr' cl',
  run_actions n actions result cl st tr = (st', tr', Return cl') ->
  map fst cl' = rev (registering actions result st) ++ map fst cl.
Proof.
  induction actions as [|[l a] actions IH]; intros cl st tr st' tr' cl' H;
    cbn [run_actions registering] in H |- *.
  - now injection H as <- <- <-.
  - destruct (a result st) as [st1 [c|m]]; [|discriminate].
    apply IH in H. destruct c as [f|]; [|exact H].
    cbn [rev map fst] in *. now rewrite H, <- app_assoc.
Qed.

(** X4: when a run returns, its trace is: every action of the command
    in order; then the trace of the middle loop, which runs the
    sub-commands that have a result from the state the actions left;
    then one clean-up call for every action that handed a clean-up
    back, the last of them first.  Without a sub-command result nothing
    comes in between. *)
Theorem run_cleans_up_in_reverse n actions commands entries (st st' : S) tr tr' :
  run (MkCli n actions commands) (MkResult entries) st tr = (st', tr', Return tt) ->
  let registered := registering actions (MkResult entries) st in
  exists st1 cl st2 sub,
    run_actions n actions (MkResult entries) [] st []
    = (st1, map (Acted n) (map fst actions), Return cl)
    /\ map fst cl = rev registered
    /\ run_commands run commands entries st1 [] = (st2, sub, Return tt)
    /\ run_cleanups n cl (MkResult entries) st2 []
       = (st', map (Cleaned n) (rev registered), Return tt)
    /\ tr' = tr ++ map (Acted n) (map fst actions) ++ sub
                ++ map (Cleaned n) (rev registered)
    /\ (Forall (fun e => snd e = None) entries -> sub = [] /\ st2 = st1).
Proof.
  intros H registered. rewrite run_unfold in H.
  rewrite (run_actions_prefix n actions (MkResult entries) [] st tr) in H.
  destruct (run_actions n actions (MkResult entries) [] st [])
    as [[st1 t1] [cl|m]] eqn:Ea; cbn [fst snd] in H; [|discriminate].
  pose proof (run_actions_registering _ _ _ _ _ _ _ _ _ Ea) as Hcl.
  cbn [map] in Hcl. rewrite app_nil_r in Hcl. fold registered in Hcl.
  pose proof Ea as Et. apply run_actions_trace in Et as (Et & _).
  cbn [app] in Et. subst t1.
  rewrite (run_commands_prefix run commands entries
             (fun cn c r s t _ => run_prefix r c s t) st1) in H.
  destruct (run_commands run commands entries st1 []) as [[st2 sub] [[]|m]] eqn:Ec;
    cbn [fst snd] in H; [|discriminate].
  rewrite (run_cleanups_prefix n cl (MkResult entries) st2) in H.
  destruct (run_cleanups n cl (MkResult entries) st2 []) as [[st3 t3] r3] eqn:El.
  cbn [fst snd] in H. injection H as -> <- ->.
  pose proof El as Et3. apply run_cleanups_trace in Et3. cbn [app] in Et3.
  subst t3. rewrite Hcl in El |- *.
  exists st1, cl, st2, sub.
  split; [first [exact Ea|reflexivity]|]. split; [exact Hcl|].
  split; [first [exact Ec|reflexivity]|].
  split; [first [exact El|reflexivity]|]. split; [now rewrite <- !app_assoc|].
  intros Hall.
  assert (Hnone : forall s t, run_commands run commands entries s t = (s, t, Return tt)).
  { clear - Hall. induction Hall as [|[cn [r|]] rest H _ IH]; intros s t;
      cbn [run_commands]; [reflexivity|discriminate|apply IH]. }
  rewrite Hnone in Ec. now injection Ec as <- <-.
Qed.

(** X5: an action that throws ends the run at once with its error:
    the actions after it are not called, no sub-command runs, and none
    of the clean-ups registered so far is called. *)
Theorem run_action_throws n pre l a post commands result (st st1 st2 : S)
    tr tr1 cl m :
  run_actions n pre result [] st tr = (st1, tr1, Return cl) ->
  a result st1 = (st2, Throw m) ->
  run (MkCli n (pre ++ (l, a) :: post) commands) result st tr
  = (st2, tr ++ map (Acted n) (map fst pre) ++ [Acted n l], Throw m).
Proof.
  intros Hpre Ha. destruct result as [entries]. rewrite run_unfold.
  rewrite run_actions_app, Hpre. cbn [run_actions]. rewrite Ha.
  apply run_actions_trace in Hpre as (-> & _). now rewrite <- app_assoc.
Qed.

End Runner.

Example nested_run :
  run nested_cli build_result 0 []
  = (7, [Acted "wurk" "open"; Acted "wurk" "check"; Acted "wurk" "lock";
         Acted "build" "prepare"; Cleaned "build" "prepare";
         Cleaned "wurk" "lock"; Cleaned "wurk" "open"], Return tt).
Proof. reflexivity. Qed.

Lemma run_cleans_up_in_reverse_witness :
  registering [("open", act_open); ("check", act_plain); ("lock", act_open)]
    build_result 0
  = ["open"; "lock"]
  /\ exists (st1 : nat) (cl : list (string * CleanupAction nat)) (st2 : nat),
      map fst cl = ["lock"; "open"]
      /\ run_commands run [build_cli] [("test", None); ("build", Some no_commands)]
           st1 []
         = (st2, [Acted "build" "prepare"; Cleaned "build" "prepare"], Return tt)
      /\ [Acted "wurk" "open"; Acted "wurk" "check"; Acted "wurk" "lock";
          Acted "build" "prepare"; Cleaned "build" "prepare";
          Cleaned "wurk" "lock"; Cleaned "wurk" "open"]
         = [] ++ map (Acted "wurk") ["open"; "check"; "lock"]
              ++ [Acted "build" "prepare"; Cleaned "build" "prepare"]
              ++ map (Cleaned "wurk") ["lock"; "open"].
Proof.
  split; [reflexivity|].
  destruct (run_cleans_up_in_reverse nat "wurk"
              [("open", act_open); ("check", act_plain); ("lock", act_open)]
              [build_cli] [("test", None); ("build", Some no_commands)]
              0 7 [] _ eq_refl) as (st1 & cl & st2 & sub & Ha & Hcl & Hc & _ & Ht & _).
  exists st1, cl, st2.
  assert (Hsub : sub = [Acted "build" "prepare"; Cleaned "build" "prepare"]).
  { cbn in Ha. injection Ha as <- _. cbn in Hc. now injection Hc as _ <-. }
  rewrite Hsub in Hc, Ht.
  split; [exact Hcl|]. split; [exact Hc|exact Ht].
Defined.

Lemma run_action_throws_witness :
  run failing_cli no_commands 0 []
  = (2, [Acted "wurk" "open"; Acted "wurk" "load"], Throw "cannot load").
Proof.
  exact (run_action_throws nat "wurk" [("open", act_open)] "load" act_load
           [("close", act_open)] [] no_commands 0 1 2 [] _ _ "cannot load"
           eq_refl eq_refl).
Defined.

End CliRunFacts.

(** ** The commander: error output and [name] *)

Module CommanderFacts.
Import Run Commander Samples2.

Example outputError_missing_argument :
  outputError (of_string "  error: missing required argument 'name'  ")
  = of_string "Missing required argument 'name'.".
Proof. reflexivity. Qed.

Example outputError_keeps_mark :
  outputError (of_string "error: unknown option!") = of_string "Unknown option!".
Proof. reflexivity. Qed.

Example outputError_other_text :
  outputError (of_string " Error: x ") = of_string "Error: x".
Proof. reflexivity. Qed.

Lemma skip_space_idem s : skip_space (skip_space s) = skip_space s.
Proof.
  induction s as [|c s IH]; cbn [skip_space]; [reflexivity|].
  destruct (is_space c) eqn:E; [exact IH|]. cbn [skip_space]. now rewrite E.
Qed.

Lemma rstrip_idem x : rstrip (rstrip x) = rstrip x.
Proof.
  induction x as [|c x IH]; [reflexivity|].
  destruct (decide (rstrip (c :: x) = [])) as [E|E].
  - rewrite E. reflexivity.
  - rewrite (RunFacts.rstrip_cons c x E).
    transitivity (rstrip (c :: x)); [|exact (RunFacts.rstrip_cons c x E)].
    cbn [rstrip]. now rewrite IH.
Qed.

Lemma skip_space_head c s : skip_space (c :: s) = c :: s -> is_space c = false.
Proof.
  cbn [skip_space]. destruct (is_space c); [|reflexivity].
  intros H. pose proof (RunFacts.skip_space_length s) as L.
  rewrite H in L. simpl in L. lia.
Qed.

Lemma rstrip_keeps_head c s :
  is_space c = false -> exists r, rstrip (c :: s) = c :: r.
Proof.
  intros H. cbn [rstrip]. destruct (rstrip s); rewrite ?H; eauto.
Qed.

Lemma skip_rstrip y : skip_space y = y -> skip_space (rstrip y) = rstrip y.
Proof.
  destruct y as [|c y]; [reflexivity|]. intros H.
  apply skip_space_head in H.
  destruct (rstrip_keeps_head c y H) as [r ->]. cbn [skip_space]. now rewrite H.
Qed.

(** A trimmed string has no white space at either end. *)
Lemma trim_trimmed s : skip_space (trim s) = trim s /\ rstrip (trim s) = trim s.
Proof.
  unfold trim. split; [apply skip_rstrip, skip_space_idem|apply rstrip_idem].
Qed.

Lemma trim_fixed y : skip_space y = y -> rstrip y = y -> trim y = y.
Proof. intros H1 H2. unfold trim. now rewrite H1, H2. Qed.

Lemma rstrip_last l : forall c,
  last l = Some c -> is_space c = false -> rstrip l = l.
Proof.
  induction l as [|a l IH]; intros c Hl Hc; [reflexivity|].
  destruct l as [|b l].
  - cbn in Hl. injection Hl as ->. cbn. now rewrite Hc.
  - change (last (a :: b :: l)) with (last (b :: l)) in Hl.
    specialize (IH c Hl Hc).
    change (rstrip (a :: b :: l))
      with (match rstrip (b :: l) with
            | [] => if is_space a then [] else [a]
            | r => a :: r
            end).
    now rewrite IH.
Qed.

Lemma punctuation_not_space p : is_punctuation p = true -> is_space p = false.
Proof.
  unfold is_punctuation. rewrite !orb_true_iff, !N.eqb_eq.
  intros [[->| ->]| ->]; reflexivity.
Qed.

Lemma upper_not_space c : is_lower c = true -> is_space (toUpperCase c) = false.
Proof.
  unfold is_lower, toUpperCase. rewrite andb_true_iff, !N.leb_le. intros [H1 H2].
  apply Bool.not_true_is_false. unfold is_space.
  rewrite !orb_true_iff, !andb_true_iff, !N.eqb_eq, !N.leb_le. lia.
Qed.

Lemma punctuated_last tail :
  exists p, last (punctuated tail) = Some p /\ is_punctuation p = true.
Proof.
  unfold punctuated. destruct (last tail) as [c|] eqn:E.
  - destruct (is_punctuation c) eqn:P; [eauto|].
    exists 46%N. split; [apply last_snoc|reflexivity].
  - exists 46%N. split; reflexivity.
Qed.

Lemma last_cons_punctuated u tail :
  last (u :: punctuated tail) = last (punctuated tail).
Proof.
  destruct (punctuated_last tail) as (p & Hp & _).
  destruct (punctuated tail); [discriminate|reflexivity].
Qed.

Lemma strip_prefix_Some prefix : forall s r,
  strip_prefix prefix s = Some r -> s = prefix ++ r.
Proof.
  induction prefix as [|p prefix IH]; intros s r H; cbn [strip_prefix] in H.
  - now injection H as ->.
  - destruct s as [|c s]; [discriminate|].
    destruct (N.eqb_spec p c) as [->|]; [|discriminate].
    cbn [app]. f_equal. now apply IH.
Qed.

(** What [replace_error] does to a string: nothing, or the rewrite. *)
Lemma replace_error_cases str :
  replace_error str = str
  \/ exists c tail,
       str = of_string "error: " ++ c :: tail
       /\ is_lower c = true
       /\ replace_error str = toUpperCase c :: punctuated tail.
Proof.
  unfold replace_error.
  destruct (strip_prefix (of_string "error: ") str) as [[|c tail]|] eqn:E;
    [now left| |now left].
  destruct (is_lower c) eqn:L; [|now left]. cbn [andb].
  destruct (forallb _ _); [|now left].
  right. exists c, tail. apply strip_prefix_Some in E. auto.
Qed.

Lemma rewritten_is_fixed c tail :
  is_lower c = true ->
  let out := toUpperCase c :: punctuated tail in
  skip_space out = out /\ rstrip out = out /\ replace_error out = out.
Proof.
  intros L out. pose proof (upper_not_space c L) as U.
  destruct (punctuated_last tail) as (p & Hp & P).
  split; [|split].
  - unfold out. cbn [skip_space]. now rewrite U.
  - apply rstrip_last with p.
    + unfold out. now rewrite last_cons_punctuated.
    + now apply punctuation_not_space.
  - unfold out, replace_error. cbn [of_string list_ascii_of_string map strip_prefix].
    replace (N_of_ascii "e" =? toUpperCase c)%N with false; [reflexivity|].
    symmetry. apply N.eqb_neq. unfold is_lower, toUpperCase in *.
    apply andb_true_iff in L as [L1 L2]. apply N.leb_le in L1, L2.
    change (N_of_ascii "e") with 101%N. lia.
Qed.

(** X6: formatting an error message twice gives what formatting it
    once gives, and the result has no white space at either end. *)
Theorem outputError_idempotent (str : jsstr) :
  outputError (outputError str) = outputError str
  /\ trim (outputError str) = outputError str.
Proof.
  unfold outputError.
  assert (F : trim (replace_error (trim str)) = replace_error (trim str)
              /\ replace_error (replace_error (trim str)) = replace_error (trim str)).
  { destruct (trim_trimmed str) as [T1 T2].
    destruct (replace_error_cases (trim str)) as [E|(c & tail & _ & L & E)];
      rewrite E.
    - split; [now apply trim_fixed|exact E].
    - destruct (rewritten_is_fixed c tail L) as (A & B & C). cbn zeta in A, B, C.
      split; [now apply trim_fixed|exact C]. }
  destruct F as [F1 F2]. rewrite F1. auto.
Qed.

(** X7: a message is rewritten only if, once trimmed, it is
    ["error: "] followed by a lower-case letter; the result then starts
    with that letter in upper case, has lost the prefix and ends in
    [.], [!] or [?].  Any other message is only trimmed. *)
Theorem outputError_shape (str : jsstr) :
  outputError str = trim str
  \/ exists c tail p,
       trim str = of_string "error: " ++ c :: tail
       /\ is_lower c = true
       /\ outputError str = toUpperCase c :: punctuated tail
       /\ last (outputError str) = Some p
       /\ is_punctuation p = true.
Proof.
  unfold outputError.
  destruct (replace_error_cases (trim str)) as [E|(c & tail & Hs & L & E)];
    [now left|right].
  destruct (punctuated_last tail) as (p & Hp & P).
  exists c, tail, p. rewrite E, last_cons_punctuated. auto.
Qed.

Example name_of_unnamed_runs_out :
  name push_alias 1000 unnamed (Some "build") = None.
Proof. reflexivity. Qed.

(** X8: [name(n)] never renames.  On a command that has a name it adds
    [n] as an alias and returns; on a command without a name it calls
    itself with the same argument, and however many calls it may make,
    it has not returned.  Without argument it returns the name. *)
Theorem name_never_renames (alias : string -> Command -> Command)
    (c : Command) (n : string) (calls : nat) :
  (_name c = "" -> name alias calls c (Some n) = None)
  /\ (_name c <> "" -> name alias (S calls) c (Some n) = Some (This (alias n c)))
  /\ name alias (S calls) c None = Some (ItsName (_name c)).
Proof.
  split; [|split].
  - intros H. induction calls as [|k IH]; [reflexivity|].
    cbn [name]. now rewrite H.
  - intros H. cbn [name]. destruct (String.eqb_spec (_name c) ""); [contradiction|].
    reflexivity.
  - reflexivity.
Qed.

Lemma name_never_renames_witness :
  name push_alias 50 unnamed (Some "build") = None
  /\ name push_alias 1 named_build (Some "b")
     = Some (This {| _name := "build"; _aliases := ["b"] |}).
Proof.
  split.
  - exact (proj1 (name_never_renames push_alias unnamed "build" 50) eq_refl).
  - refine (proj1 (proj2 (name_never_renames push_alias named_build "b" 0)) _).
    discriminate.
Defined.

End CommanderFacts.

(** ** More of the root CLI *)

Module RunMoreFacts.
Import Js Run RunOptions RunFacts Samples.

(** *** The list kept in [WURK_RUNNING_COMMANDS] *)

Lemma split_loop_not_empty n : forall piece s, split_loop n piece s <> [].
Proof.
  induction n as [|n IH]; intros piece [|c s]; cbn [split_loop]; try discriminate.
  destruct (match_separator (c :: s)); [discriminate|apply IH].
Qed.

(** X9: whatever the variable holds, the list read from it is not
    empty and none of its elements contains a comma. *)
Theorem split_pieces (s : jsstr) :
  split s <> [] /\ Forall no_comma (split s).
Proof.
  split; [apply split_loop_not_empty|].
  apply split_loop_no_comma; [lia|constructor].
Qed.

Lemma trimmed_fixed l : forall x,
  Forall (fun p => rstrip p = p) (removelast (x :: l)) ->
  Forall (fun p => skip_space p = p) l ->
  trimmed [] x l = x :: l.
Proof.
  induction l as [|y l IH]; intros x Hr Hl; cbn [trimmed app]; [reflexivity|].
  change (removelast (x :: y :: l)) with (x :: removelast (y :: l)) in Hr.
  apply Forall_cons in Hr as [Hx Hr]. apply Forall_cons in Hl as [Hy Hl].
  rewrite Hx, Hy. f_equal. now apply IH.
Qed.

Lemma Forall_removelast {A} (P : A -> Prop) l : Forall P l -> Forall P (removelast l).
Proof.
  induction 1 as [|x l Hx Hl IH]; [constructor|].
  destruct l; [constructor|]. cbn [removelast]. constructor; assumption.
Qed.

(** X10: a list of plain names that is joined and split again is the
    same list: what an invocation writes into the variable is what the
    invocations below it read. *)
Theorem split_join_plain (l : list jsstr) :
  l <> [] -> Forall plain l -> split (join l) = l.
Proof.
  intros Hne Hp. destruct l as [|x l]; [contradiction|].
  apply Forall_cons in Hp as [Hx Hl].
  rewrite join_cons, split_sl, sl_join.
  - apply trimmed_fixed.
    + apply Forall_removelast. constructor; [apply Hx|].
      eapply Forall_impl; [exact Hl|]. intros p Hpl. apply Hpl.
    + eapply Forall_impl; [exact Hl|]. intros p Hpl. apply Hpl.
  - apply Hx.
  - eapply Forall_impl; [exact Hl|]. intros p Hpl. apply Hpl.
Qed.

Lemma split_join_plain_witness :
  [build; lint] <> [] /\ Forall plain [build; lint]
  /\ split (join [build; lint]) = [build; lint].
Proof.
  assert (P : Forall plain [build; lint])
    by (repeat constructor; auto using plain_build, plain_lint).
  split; [discriminate|]. split; [exact P|].
  apply split_join_plain; [discriminate|exact P].
Defined.

Lemma match_separator_rest s rest :
  match_separator s = Some rest -> skip_space rest = rest.
Proof.
  unfold match_separator. destruct (skip_space s) as [|c r]; [discriminate|].
  destruct (c =? comma)%N; [|discriminate]. intros H. injection H as <-.
  apply CommanderFacts.skip_space_idem.
Qed.

Lemma skip_space_snoc piece c :
  skip_space piece = piece -> (piece = [] -> is_space c = false) ->
  skip_space (piece ++ [c]) = piece ++ [c].
Proof.
  destruct piece as [|p ps]; intros H Hc; cbn [app skip_space].
  - now rewrite Hc.
  - apply CommanderFacts.skip_space_head in H. now rewrite H.
Qed.

Lemma left_inv n : forall piece s,
  length s <= n -> skip_space piece = piece -> (piece = [] -> skip_space s = s) ->
  Forall (fun p => skip_space p = p) (sl piece s).
Proof.
  induction n as [|n IH]; intros piece [|c s] Hn Hp Hs;
    try (rewrite sl_nil; now repeat constructor); [simpl in Hn; lia|].
  simpl in Hn. rewrite sl_cons.
  destruct (match_separator (c :: s)) as [rest|] eqn:E.
  - constructor; [exact Hp|].
    pose proof (match_separator_length _ _ E) as L. simpl in L.
    apply IH; [lia|reflexivity|]. intros _. now apply match_separator_rest in E.
  - apply IH; [lia| |].
    + apply skip_space_snoc; [exact Hp|]. intros Hnil.
      now apply CommanderFacts.skip_space_head with s, Hs.
    + intros H. now apply app_eq_nil in H as [_ H].
Qed.

Lemma left_tail n : forall piece s,
  length s <= n -> Forall (fun p => skip_space p = p) (tail (sl piece s)).
Proof.
  induction n as [|n IH]; intros piece [|c s] Hn;
    try (rewrite sl_nil; now constructor); [simpl in Hn; lia|].
  simpl in Hn. rewrite sl_cons.
  destruct (match_separator (c :: s)) as [rest|] eqn:E.
  - cbn [tail].
    pose proof (match_separator_length _ _ E) as L. simpl in L.
    apply (left_inv (length rest)); [lia|reflexivity|].
    intros _. now apply match_separator_rest in E.
  - apply IH. lia.
Qed.

Lemma piece_no_trailing piece s rest :
  no_match_inside piece s -> match_separator s = Some rest -> rstrip piece = piece.
Proof.
  intros Hin E. destruct piece as [|p ps] using rev_ind; [reflexivity|].
  clear IHps. destruct (is_space p) eqn:Sp.
  - specialize (Hin ps [p] eq_refl ltac:(discriminate)).
    unfold match_separator in Hin, E. cbn [app skip_space] in Hin.
    rewrite Sp in Hin. congruence.
  - apply CommanderFacts.rstrip_last with p; [apply last_snoc|exact Sp].
Qed.

Lemma no_match_inside_snoc piece c s :
  no_match_inside piece (c :: s) -> match_separator (c :: s) = None ->
  no_match_inside (piece ++ [c]) s.
Proof.
  intros Hin E a b Hab Hb.
  destruct b as [|b0 bs] using rev_ind; [contradiction|]. clear IHbs.
  rewrite app_assoc in Hab. apply app_inj_tail in Hab as [Hp ->].
  rewrite <- app_assoc. cbn [app].
  destruct bs as [|b1 bs']; [exact E|].
  apply (Hin a (b1 :: bs') Hp). discriminate.
Qed.

Lemma right_inv n : forall piece s,
  length s <= n -> no_match_inside piece s ->
  Forall (fun p => rstrip p = p) (removelast (sl piece s)).
Proof.
  induction n as [|n IH]; intros piece [|c s] Hn Hin;
    try (rewrite sl_nil; now constructor); [simpl in Hn; lia|].
  simpl in Hn. rewrite sl_cons.
  destruct (match_separator (c :: s)) as [rest|] eqn:E.
  - pose proof (match_separator_length _ _ E) as L. simpl in L.
    assert (Hrest : Forall (fun p => rstrip p = p) (removelast (sl [] rest))).
    { apply IH; [lia|]. intros a b Hab Hb.
      symmetry in Hab. apply app_eq_nil in Hab as [_ ->]. contradiction. }
    pose proof (split_loop_not_empty (length rest) [] rest) as Hne.
    fold (sl [] rest) in Hne.
    destruct (sl [] rest) as [|q qs]; [contradiction|].
    change (removelast (piece :: q :: qs)) with (piece :: removelast (q :: qs)).
    constructor; [|exact Hrest]. now apply piece_no_trailing with (c :: s) rest.
  - apply IH; [lia|]. now apply no_match_inside_snoc.
Qed.

Lemma split_inner_ends s : inner_ends_trimmed (split s).
Proof.
  rewrite split_sl. split.
  - apply (right_inv (length s)); [lia|]. intros a b Hab Hb.
    symmetry in Hab. apply app_eq_nil in Hab as [_ ->]. contradiction.
  - apply (left_tail (length s)). lia.
Qed.

(** X11: reading the variable normalises it.  The elements read lose
    the white space around the commas, and joining them and reading the
    result again gives the same list. *)
Theorem split_join_split (s : jsstr) :
  inner_ends_trimmed (split s) /\ split (join (split s)) = split s.
Proof.
  pose proof (split_inner_ends s) as [Hr Hl].
  pose proof (split_loop_not_empty (length s) [] s) as Hne.
  assert (Hc : Forall no_comma (split s))
    by (apply split_loop_no_comma; [lia|constructor]).
  fold (split s) in Hne.
  split; [now split|].
  destruct (split s) as [|x l]; [contradiction|].
  apply Forall_cons in Hc as [Hx Hc].
  rewrite join_cons, split_sl, sl_join by assumption.
  now apply trimmed_fixed.
Qed.

(** *** Options and the environment *)

(** The settings an invocation that returns has handed down. *)
Lemma action_settings world options commandName env r :
  action world options commandName env = Finished r ->
  env_after r
  = settings options env
      (with_running (join (running_of env ++ [name_text commandName])) env).
Proof.
  unfold action.
  destruct (includes (running_of env) commandName); [discriminate|].
  destruct (let* dirs := getWorkspaces world in workspaceEntries dirs)
    as [entries|m]; [|discriminate].
  destruct (new_WorkspaceCollection world _); [discriminate|].
  destruct (Run.select world _); [discriminate|].
  destruct (init world); [discriminate|].
  destruct (script_given options) as [sc|].
  - destruct (bool_decide (sc ∈ root_scripts world)); [|discriminate].
    destruct (spawnPackageScript world sc _); [discriminate|].
    intros H. now injection H as <-.
  - intros H. now injection H as <-.
Qed.

(** X13: once the action of the concurrency option has run, no
    collection is built with [forEachSequential]: it streams unless the
    parallel flag is set, whatever [WURK_STREAM] says, and an invocation
    that returns has handed the stream flag down to nested invocations. *)
Theorem concurrency_implies_stream world options commandName env :
  let o := action world (concurrency_optionAction options) commandName env in
  (forall c, collection_of o = Some c ->
     co_defaultIterationMethod c
     = (if flag_of (parallel options) (WURK_PARALLEL env) then forEachParallel
        else forEachStream)
     /\ co_defaultIterationMethod c <> forEachSequential
     /\ co_concurrency c = concurrency_of options env)
  /\ (forall dirs,
        includes (running_of env) commandName = false ->
        getWorkspaces world = Return dirs ->
        exists c, collection_of o = Some c /\ co_workspaces c = dirs)
  /\ (forall r, o = Finished r -> WURK_STREAM (env_after r) = Some (JBoolean true)).
Proof.
  intros o. split; [|split].
  - intros c Hc. apply RunFacts.action_collection in Hc as (_ & dirs & _ & ->).
    cbn [collection co_defaultIterationMethod co_concurrency
         concurrency_optionAction parallel stream].
    change (flag_of (Some true) (WURK_STREAM env)) with true.
    split; [reflexivity|]. split; [|reflexivity].
    destruct (flag_of (parallel options) (WURK_PARALLEL env)); discriminate.
  - intros dirs I G.
    destruct (RunFacts.action_ran world (concurrency_optionAction options)
                commandName env I) as (r & R & _ & C & _).
    rewrite G in C. eexists. unfold collection_of. fold o in R. rewrite R.
    split; [exact C|reflexivity].
  - intros r H. apply action_settings in H. rewrite H. reflexivity.
Qed.

Lemma concurrency_implies_stream_witness :
  exists c r,
    collection_of (action quiet (concurrency_optionAction no_options) (Some build)
                     no_env) = Some c
    /\ co_defaultIterationMethod c = forEachStream
    /\ action quiet (concurrency_optionAction no_options) (Some build) no_env
       = Finished r
    /\ WURK_STREAM (env_after r) = Some (JBoolean true).
Proof.
  destruct (concurrency_implies_stream quiet no_options (Some build) no_env)
    as (A & B & C).
  destruct (B _ eq_refl eq_refl) as (c & Hc & _).
  exists c. eexists. split; [exact Hc|]. split; [exact (proj1 (A c Hc))|].
  split; [reflexivity|]. apply C. reflexivity.
Defined.

Lemma parse_workspace_fold values : forall previous,
  fold_left (fun prev v => Some (parse_workspace v prev)) values (Some previous)
  = Some (previous ++ values).
Proof.
  induction values as [|v values IH]; intros previous; cbn [fold_left].
  - now rewrite app_nil_r.
  - cbn [parse_workspace]. rewrite IH. now rewrite <- app_assoc.
Qed.

(** X14: the expressions given with [-w], however many, reach [select]
    in the order given and unchanged, whenever [select] is called: the
    environment is not consulted and the wildcard is not added. *)
Theorem workspace_options_reach_select world options commandName env
    (v : string) (values : list string) :
  expressions options
  = fold_left (fun prev v => Some (parse_workspace v prev)) (v :: values) None ->
  let o := action world options commandName env in
  (forall es, selection_of o = Some es -> es = v :: values)
  /\ (forall dirs,
        includes (running_of env) commandName = false ->
        getWorkspaces world = Return dirs ->
        new_WorkspaceCollection world (collection options env dirs) = None ->
        selection_of o = Some (v :: values)).
Proof.
  intros He o.
  cbn [fold_left parse_workspace] in He. rewrite parse_workspace_fold in He.
  assert (Hs : selected options env = v :: values).
  { unfold selected, expressions_of. rewrite He. reflexivity. }
  split.
  - intros es H. apply RunFacts.action_selection in H. congruence.
  - intros dirs I G N.
    destruct (RunFacts.action_ran world options commandName env I)
      as (r & R & _ & C & S).
    rewrite G in C. rewrite C, N, Hs in S.
    unfold selection_of. fold o in R. now rewrite R.
Qed.

Lemma workspace_options_reach_select_witness :
  expressions both_flags
  = fold_left (fun prev v => Some (parse_workspace v prev)) ["pkg-a"] None
  /\ selection_of (action quiet both_flags (Some build) no_env) = Some ["pkg-a"].
Proof.
  split; [reflexivity|].
  exact (proj2 (workspace_options_reach_select quiet both_flags (Some build) no_env
                  "pkg-a" [] eq_refl) _ eq_refl eq_refl eq_refl).
Defined.

End RunMoreFacts.

(** ** More of the filesystem publisher *)

Module PublishMoreFacts.
Import Js Publish Samples Samples2.
Import Workspaces (StatusValue, pending, success, failure, skipped).

Section Publisher.

Variable semver : Semver.
Variable pm : PackageManager.
Variable git : option Git.
Variable published : gset string.
Variable covers : string -> string -> bool.
Variable pack_dry_run : completion (list string).
Variable Config : Type.
Variable set_dependency : DependencyType -> string -> string -> Config -> Config.
Variable remove_field : string -> Config -> Config.
Variable set_gitHead : string -> Config -> Config.
Variable stringify : Config -> string.
Variable spawn_npm : list string -> option string -> option string * completion unit.

Local Abbreviation validateDependency := (validateDependency semver pm git published).
Local Abbreviation validateDependencies :=
  (validateDependencies semver pm git published).
Local Abbreviation validate := (validate semver pm git published covers pack_dry_run).
Local Abbreviation publish :=
  (publishFromFilesystem semver pm git published covers pack_dry_run
     set_dependency remove_field set_gitHead stringify spawn_npm).
Local Abbreviation prepare := (prepare git set_dependency remove_field set_gitHead).

Lemma forallb_false_exists {A} (f : A -> bool) l :
  forallb f l = false -> exists x, In x l /\ f x = false.
Proof.
  induction l as [|a l IH]; cbn [forallb]; [discriminate|].
  destruct (f a) eqn:E; cbn [andb].
  - intros H. destruct (IH H) as (x & Hx & Hf). exists x. split; [now right|exact Hf].
  - intros _. exists a. split; [now left|exact E].
Qed.

Lemma validateDependency_unit link u : validateDependency link = Return u ->
  validateDependency link = Return tt.
Proof. now destruct u. Qed.

Lemma validateDependencies_all (links : list WorkspaceLink) :
  validateDependencies links = Return tt
  <-> Forall (fun l => validateDependency l = Return tt) links.
Proof.
  induction links as [|l links IH]; cbn [Publish.validateDependencies].
  - split; [constructor|reflexivity].
  - destruct (validateDependency l) as [[]|m] eqn:E; cbn [bind].
    + rewrite IH. split; [now constructor|]. intros H.
      now apply Forall_cons in H as [_ H].
    + split; [discriminate|]. intros H. apply Forall_cons in H as [H _].
      congruence.
Qed.

(** X15: the links of a workspace are validated in order; validation
    passes exactly when every link passes, and otherwise fails with the
    error of the first link that fails, the links after it not being
    looked at. *)
Theorem validateDependencies_first_error (links : list WorkspaceLink) :
  (validateDependencies links = Return tt
   <-> Forall (fun l => validateDependency l = Return tt) links)
  /\ (forall pre l post m,
      links = pre ++ l :: post ->
      Forall (fun l => validateDependency l = Return tt) pre ->
      validateDependency l = Throw m ->
      validateDependencies links = Throw m).
Proof.
  split; [apply validateDependencies_all|].
  intros pre l post m -> Hpre Hl.
  induction Hpre as [|p pre Hp _ IH]; cbn [app Publish.validateDependencies].
  - now rewrite Hl.
  - now rewrite Hp.
Qed.

(** X16: a dependency that was published earlier in the same run is
    taken on trust: when the entry is a non-dev npm entry on a versioned,
    public workspace whose version satisfies the range, and the range is
    a wildcard or has that version as its minimum, validation returns
    without asking the registry or git. *)
Theorem published_dependency_is_trusted (link : WorkspaceLink)
    (spec_name range version : string) :
  spec link = SpecNpm spec_name range ->
  dep_version (dependency link) = Some version -> version <> "" ->
  dep_isPrivate (dependency link) = false ->
  satisfies semver version range = true ->
  is_wildcard range = true \/ minVersion semver range = Some version ->
  dep_name (dependency link) ∈ published ->
  validateDependency link = Return tt.
Proof.
  intros Hs Hv Hne Hp Hsat Hmin Hin. unfold Publish.validateDependency.
  destruct (is_dev (type link)); [reflexivity|].
  rewrite Hs, Hv, Hp, Hsat.
  destruct (String.eqb_spec version ""); [contradiction|]. cbn [negb].
  replace (negb (is_wildcard range)
           && negb (bool_decide (minVersion semver range = Some version)))
    with false.
  - now rewrite bool_decide_eq_true_2.
  - destruct Hmin as [->| ->]; [reflexivity|].
    rewrite bool_decide_eq_true_2 by reflexivity. now rewrite andb_false_r.
Qed.

(** What [validate] has established when it answers [true]. *)
Lemma validate_true w calls :
  validate w = (calls, Return true) ->
  calls = []
  /\ isPrivate w = false
  /\ truthy (version w) = true
  /\ getMetadata pm (name w) (text (version w)) = None
  /\ match git with Some g => getIsDirty g None = false | None => True end
  /\ (exists packed,
        pack_dry_run = Return packed
        /\ Forall (fun entry => exists packEntry,
                     packEntry ∈ packed /\ covers (snd entry) packEntry = true)
                  (getEntrypoints w))
  /\ Forall (fun l => validateDependency l = Return tt) (getDependencyLinks w).
Proof.
  unfold Publish.validate.
  destruct (isPrivate w); [discriminate|].
  destruct (truthy (version w)); [|discriminate]. cbn [negb].
  destruct (getMetadata pm (name w) (text (version w))); [discriminate|].
  destruct (match git with Some g => getIsDirty g None | None => false end) eqn:Gd;
    [discriminate|].
  intros H. injection H as <- H.
  split; [reflexivity|]. split; [reflexivity|]. split; [reflexivity|].
  split; [reflexivity|]. split; [now destruct git|].
  destruct pack_dry_run as [packed|m]; cbn [bind] in H; [|discriminate].
  destruct (length _ =? 0)%nat eqn:L; cbn [negb] in H; [|discriminate].
  destruct (validateDependencies (getDependencyLinks w)) as [[]|m] eqn:V;
    cbn [bind] in H; [|discriminate].
  split.
  - exists packed. split; [reflexivity|].
    apply Nat.eqb_eq, length_zero_iff_nil in L.
    apply Forall_forall. intros entry Hin.
    destruct (forallb (fun packEntry => negb (covers (snd entry) packEntry)) packed)
      eqn:F.
    + assert (Hf : In entry
                (List.filter
                   (fun entry => forallb (fun packEntry =>
                                            negb (covers (snd entry) packEntry)) packed)
                   (getEntrypoints w))).
      { apply filter_In. split; [now apply list_elem_of_In|exact F]. }
      rewrite L in Hf. inversion Hf.
    + apply forallb_false_exists in F as (p & Hp & F).
      exists p. split; [now apply list_elem_of_In|].
      now apply negb_false_iff in F.
  - now apply validateDependencies_all.
Qed.

(** X17: the publisher reports success only for a workspace that is
    public, has a version, is not yet in the registry, sits in a clean
    git tree, has every entry point in the pack and every dependency
    link validated, and only when its [package.json] could be read and
    [npm] returned. *)
Theorem success_only_if_validated options w config disk d :
  (success, d) ∈ status_calls (publish options w config disk) ->
  isPrivate w = false
  /\ truthy (version w) = true
  /\ getMetadata pm (name w) (text (version w)) = None
  /\ match git with Some g => getIsDirty g None = false | None => True end
  /\ (exists packed,
        pack_dry_run = Return packed
        /\ Forall (fun entry => exists packEntry,
                     packEntry ∈ packed /\ covers (snd entry) packEntry = true)
                  (getEntrypoints w))
  /\ Forall (fun l => validateDependency l = Return tt) (getDependencyLinks w)
  /\ truthy disk = true
  /\ snd (spawn_npm (npm_args options) (Some (stringify (prepare options w config))))
     = Return tt
  /\ d = Some (success_detail options w).
Proof.
  intros Hin.
  pose proof (PublishFacts.publish_cases semver pm git published covers pack_dry_run
                Config set_dependency remove_field set_gitHead stringify spawn_npm
                options w config disk) as P.
  cbn zeta in P.
  pose proof (PublishFacts.validate_calls semver pm git published covers pack_dry_run w)
    as C.
  destruct (validate w) as [calls [[|]|m]] eqn:V.
  - destruct (validate_true w calls V) as (-> & A1 & A2 & A3 & A4 & A5 & A6).
    destruct (truthy disk).
    + destruct (snd (spawn_npm _ _)) as [[]|m] eqn:Sp; rewrite P in Hin; cbn in Hin.
      * apply elem_of_cons in Hin as [Hin|Hin]; [discriminate|].
        apply elem_of_cons in Hin as [Hin|Hin]; [|inversion Hin].
        injection Hin as ->. auto 12.
      * apply elem_of_cons in Hin as [Hin|Hin]; [discriminate|inversion Hin].
    + rewrite P in Hin. cbn in Hin.
      apply elem_of_cons in Hin as [Hin|Hin]; [discriminate|inversion Hin].
  - rewrite P in Hin. cbn in Hin.
    apply elem_of_cons in Hin as [Hin|Hin]; [discriminate|].
    destruct C as [C|[d' C]]; [cbn in C; subst calls; inversion Hin|].
    injection C as -> . apply elem_of_cons in Hin as [Hin|Hin];
      [discriminate|inversion Hin].
  - rewrite P in Hin. cbn in Hin.
    apply elem_of_cons in Hin as [Hin|Hin]; [discriminate|].
    destruct C as [C|[d' C]]; [cbn in C; subst calls; inversion Hin|discriminate].
Qed.

(** X18: once validation has passed, the manifest in memory keeps the
    temporary changes (pinned ranges, removed fields, [gitHead]) after
    the call, whether [npm] returned or threw, while the file on disk
    has its old text again. *)
Theorem manifest_in_memory_stays_changed options w config disk calls :
  validate w = (calls, Return true) ->
  config_after (publish options w config disk) = prepare options w config
  /\ package_json (publish options w config disk) = disk.
Proof.
  intros V.
  pose proof (PublishFacts.publish_cases semver pm git published covers pack_dry_run
                Config set_dependency remove_field set_gitHead stringify spawn_npm
                options w config disk) as P.
  cbn zeta in P. rewrite V in P.
  destruct (truthy disk); [|now rewrite P].
  destruct (snd (spawn_npm _ _)); now rewrite P.
Qed.

End Publisher.

Lemma validateDependencies_first_error_witness :
  Publish.validateDependencies semver_table empty_registry None ∅
    [dev_link; link_to utils_private "^2.0.0"; link_to utils_public "^1.0.0"]
  = Throw "dependency is private".
Proof.
  refine (proj2 (validateDependencies_first_error semver_table empty_registry None ∅
                   [dev_link; link_to utils_private "^2.0.0";
                    link_to utils_public "^1.0.0"])
            [dev_link] (link_to utils_private "^2.0.0")
            [link_to utils_public "^1.0.0"] _ eq_refl _ eq_refl).
  repeat constructor.
Defined.

Lemma published_dependency_is_trusted_witness :
  Publish.validateDependency semver_table empty_registry None {[ "utils" ]}
    (link_to utils_public "^1.0.0")
  = Return tt.
Proof.
  refine (published_dependency_is_trusted semver_table empty_registry None
            {[ "utils" ]} (link_to utils_public "^1.0.0") "utils" "^1.0.0" "1.0.0"
            eq_refl eq_refl _ eq_refl eq_refl _ _).
  - discriminate.
  - right. reflexivity.
  - cbn. apply elem_of_singleton. reflexivity.
Defined.

Lemma success_only_if_validated_witness :
  let res := publishFromFilesystem semver_table empty_registry None {[ "utils" ]}
               covers_all (Return []) set_dependency_text remove_field_text
               set_gitHead_text stringify_text npm_succeeds plain_options pkg_b
               "{}" (Some "{}") in
  (success, Some "publish 1.0.0") ∈ status_calls res
  /\ Forall (fun l => Publish.validateDependency semver_table empty_registry None
                        {[ "utils" ]} l = Return tt)
            (getDependencyLinks pkg_b).
Proof.
  intros res.
  assert (H : (success, Some "publish 1.0.0") ∈ status_calls res)
    by (apply list_elem_of_further, list_elem_of_here).
  split; [exact H|].
  exact (proj1 (proj2 (proj2 (proj2 (proj2 (proj2
    (success_only_if_validated semver_table empty_registry None {[ "utils" ]}
       covers_all (Return []) string set_dependency_text remove_field_text
       set_gitHead_text stringify_text npm_succeeds plain_options pkg_b "{}"
       (Some "{}") _ H))))))).
Defined.

Lemma manifest_in_memory_stays_changed_witness :
  let res := publishFromFilesystem semver_table empty_registry
               (Some {| getIsDirty := fun _ => false;
                        getHead := fun _ => Some "abc123" |})
               ∅ covers_all (Return []) set_dependency_text remove_field_text
               set_gitHead_text stringify_text npm_fails plain_options pkg_a
               "{}" (Some "{}") in
  config_after res = "{}abc123" /\ package_json res = Some "{}".
Proof.
  exact (manifest_in_memory_stays_changed semver_table empty_registry
           (Some {| getIsDirty := fun _ => false; getHead := fun _ => Some "abc123" |})
           ∅ covers_all (Return []) string set_dependency_text remove_field_text
           set_gitHead_text stringify_text npm_fails plain_options pkg_a "{}"
           (Some "{}") [] eq_refl).
Defined.

End PublishMoreFacts.

(** ** More of the dependency-check command *)

Module DepCheckMoreFacts.
Import Js DepCheck Samples Samples2.
Import Workspaces (StatusValue, pending, success, failure, skipped).

Section Hooks.

Variable ops : DependencySetOps.
Variable files : Files.
Variable spawn_npm : list string -> Z -> Z * completion unit.

Local Abbreviation each := (each ops files spawn_npm).
Local Abbreviation unused := (unused ops files).
Local Abbreviation each_all := (each_all ops files spawn_npm).
Local Abbreviation run := (run ops files spawn_npm).

Lemma fold_info who (l : list string) st :
  let st' := fold_left (fun s d => info who (String.append "  - " d) s) l st in
  isFailed st' = isFailed st /\ exitCode st' = exitCode st
  /\ status_calls st' = status_calls st.
Proof.
  destruct (DepCheckFacts.fold_info_fields who l st) as (A & B & C & _). auto.
Qed.

(** Without [--fix] an action never touches the exit code. *)
Lemma each_exit_code w st : exitCode (fst (each false w st)) = exitCode st.
Proof.
  unfold DepCheck.each.
  destruct (isSelected w); cbn [negb]; [|reflexivity].
  destruct (Nat.eqb (ds_size ops (ds_new ops _ _)) 0); [reflexivity|].
  destruct (getSourceFilenames files (dir w)) as [filenames|m]; [|reflexivity].
  destruct (scan ops files filenames _) as [ds|m]; [|reflexivity].
  destruct (Nat.eqb (ds_size ops ds) 0); [reflexivity|]. cbn [negb fst].
  match goal with
  | |- context [fold_left ?f ?l ?s] =>
    destruct (fold_info (name w) l s) as (_ & B & _)
  end.
  cbn zeta in B. cbn. now rewrite B.
Qed.

(** With [--fix] an action never raises the flag. *)
Lemma each_fix_flag w st : isFailed (fst (each true w st)) = isFailed st.
Proof.
  unfold DepCheck.each.
  destruct (isSelected w); cbn [negb]; [|reflexivity].
  destruct (Nat.eqb (ds_size ops (ds_new ops _ _)) 0); [reflexivity|].
  destruct (getSourceFilenames files (dir w)) as [filenames|m]; [|reflexivity].
  destruct (scan ops files filenames _) as [ds|m]; [|reflexivity].
  destruct (Nat.eqb (ds_size ops ds) 0); [reflexivity|]. cbn [negb].
  destruct (spawn_npm _ _) as [code [u|m]]; reflexivity.
Qed.

Lemma caught_flag who r : isFailed (caught who r) = isFailed (fst r).
Proof. destruct r as [st [u|m]]; reflexivity. Qed.

Lemma caught_exit_code who r :
  exitCode (fst r) <> 0%Z -> exitCode (caught who r) <> 0%Z.
Proof.
  destruct r as [st [u|m]]; cbn [fst caught]; [auto|].
  intros _. apply DepCheckFacts.exitCode_or_1_nonzero.
Qed.

(** A workspace that is not selected, or of which the scan leaves no
    dependency, changes neither the flag nor the exit code. *)
Lemma each_clean opts_fix w st :
  isSelected w = false
  \/ (exists ds, unused w = Return ds /\ ds_size ops ds = 0) ->
  exists st', each opts_fix w st = (st', Return tt)
              /\ isFailed st' = isFailed st /\ exitCode st' = exitCode st.
Proof.
  unfold DepCheck.each, DepCheck.unused. intros [Hs|(ds & Hu & Hz)].
  - rewrite Hs. cbn [negb]. eauto.
  - destruct (isSelected w); cbn [negb]; [|eauto].
    destruct (Nat.eqb (ds_size ops (ds_new ops _ _)) 0); [eauto|].
    destruct (getSourceFilenames files (dir w)) as [filenames|m]; cbn [bind] in Hu;
      [|discriminate].
    rewrite Hu, Hz. cbn [Nat.eqb]. eauto.
Qed.

(** X19: when every workspace is either not selected or left without
    unused dependency by the scan, the run changes neither the failure
    flag nor the exit code, with or without [--fix]; the [after] hook
    then leaves an exit code that was not set before as it is. *)
Theorem clean_run_keeps_exit_code opts_fix (ws : list Workspace) (st : State) :
  (forall w, w ∈ ws ->
     isSelected w = false
     \/ (exists ds, unused w = Return ds /\ ds_size ops ds = 0)) ->
  isFailed (each_all opts_fix ws st) = isFailed st
  /\ exitCode (each_all opts_fix ws st) = exitCode st
  /\ (isFailed st = false -> exitCode (run opts_fix ws st) = exitCode st).
Proof.
  intros Hclean.
  assert (H : isFailed (each_all opts_fix ws st) = isFailed st
              /\ exitCode (each_all opts_fix ws st) = exitCode st).
  { unfold DepCheck.each_all. revert st.
    induction ws as [|w ws IH]; intros st; [split; reflexivity|].
    cbn [fold_left].
    destruct (each_clean opts_fix w st) as (st' & E & F & X).
    { apply Hclean. apply list_elem_of_here. }
    assert (C : Command_each (Some (each opts_fix)) w st = st')
      by (unfold Command_each, caught; now rewrite E).
    rewrite C, <- F, <- X. apply IH.
    intros w' Hw'. apply Hclean. now apply list_elem_of_further. }
  destruct H as [F X]. split; [exact F|]. split; [exact X|].
  intros Hf. unfold DepCheck.run, Command_after, after, caught.
  fold (each_all opts_fix ws st). rewrite F, Hf. exact X.
Qed.

Lemma each_all_nonzero ws : forall st,
  exitCode st <> 0%Z -> exitCode (each_all false ws st) <> 0%Z.
Proof.
  induction ws as [|w ws IH]; intros st H; [exact H|].
  unfold DepCheck.each_all. cbn [fold_left]. apply IH.
  unfold Command_each. apply caught_exit_code. now rewrite each_exit_code.
Qed.

Lemma each_throws w m st :
  isSelected w = true -> unused w = Throw m ->
  exists st', each false w st = (st', Throw m)
              /\ status_of (name w) st' = Some (pending, None).
Proof.
  unfold DepCheck.each, DepCheck.unused. intros Hs Hu. rewrite Hs. cbn [negb].
  destruct (Nat.eqb (ds_size ops (ds_new ops _ _)) 0); [discriminate|].
  destruct (getSourceFilenames files (dir w)) as [filenames|m']; cbn [bind] in Hu.
  - rewrite Hu. eexists. split; [reflexivity|].
    unfold status_of. cbn. now rewrite String.eqb_refl.
  - injection Hu as ->. eexists. split; [reflexivity|].
    unfold status_of. cbn. now rewrite String.eqb_refl.
Qed.

(** X20: without [--fix], a selected workspace whose sources cannot be
    listed or read makes its action throw with the status left at
    [pending]; the wrapper turns that into a non-zero exit code, which
    no later action and not the [after] hook resets. *)
Theorem read_error_sets_exit_code (ws : list Workspace) (st : State)
    (w : Workspace) (m : string) :
  w ∈ ws -> isSelected w = true -> unused w = Throw m ->
  (forall st0, exists st1,
      each false w st0 = (st1, Throw m)
      /\ status_of (name w) st1 = Some (pending, None))
  /\ exitCode (each_all false ws st) <> 0%Z
  /\ exitCode (run false ws st) <> 0%Z.
Proof.
  intros Hin Hs Hu.
  assert (N : exitCode (each_all false ws st) <> 0%Z).
  { clear - Hin Hs Hu. revert st. induction ws as [|w0 ws IH]; intros st;
      [inversion Hin|].
    unfold DepCheck.each_all. cbn [fold_left].
    apply elem_of_cons in Hin as [->|Hin].
    - apply each_all_nonzero. unfold Command_each, caught.
      destruct (each_throws w0 m st Hs Hu) as (st' & -> & _).
      apply DepCheckFacts.exitCode_or_1_nonzero.
    - now apply IH. }
  split; [intros st0; now apply each_throws|]. split; [exact N|].
  unfold DepCheck.run, Command_after, after, caught.
  fold (each_all false ws st).
  destruct (isFailed (each_all false ws st)); [|exact N].
  apply DepCheckFacts.exitCode_or_1_nonzero.
Qed.

(** X21: with [--fix] no action raises the failure flag, so the [after]
    hook changes nothing: unused dependencies alone never fail a fixing
    run. *)
Theorem fix_never_fails_by_flag (ws : list Workspace) (st : State) :
  isFailed (each_all true ws st) = isFailed st
  /\ (isFailed st = false -> run true ws st = each_all true ws st).
Proof.
  assert (F : isFailed (each_all true ws st) = isFailed st).
  { revert st. induction ws as [|w ws IH]; intros st; [reflexivity|].
    unfold DepCheck.each_all. cbn [fold_left].
    fold (each_all true ws (Command_each (Some (each true)) w st)).
    rewrite IH. unfold Command_each. now rewrite caught_flag, each_fix_flag. }
  split; [exact F|]. intros Hf.
  unfold DepCheck.run, Command_after, after, caught.
  fold (each_all true ws st). now rewrite F, Hf.
Qed.

End Hooks.

Lemma clean_run_keeps_exit_code_witness :
  exitCode (run list_set one_source npm_remove_ok false [tidy; tidy] fresh_state) = 0%Z.
Proof.
  refine (proj2 (proj2 (clean_run_keeps_exit_code list_set one_source npm_remove_ok
                          false [tidy; tidy] fresh_state _)) eq_refl).
  intros w Hw. right. exists [].
  apply elem_of_cons in Hw as [->|Hw]; [split; reflexivity|].
  apply elem_of_cons in Hw as [->|Hw]; [split; reflexivity|inversion Hw].
Defined.

Lemma read_error_sets_exit_code_witness :
  sloppy ∈ [sloppy; tidy]
  /\ unused list_set unreadable sloppy = Throw "EACCES"
  /\ exitCode (run list_set unreadable npm_remove_ok false [sloppy; tidy] fresh_state)
     <> 0%Z.
Proof.
  assert (H : sloppy ∈ [sloppy; tidy]) by apply list_elem_of_here.
  split; [exact H|]. split; [reflexivity|].
  exact (proj2 (proj2 (read_error_sets_exit_code list_set unreadable npm_remove_ok
                         [sloppy; tidy] fresh_state sloppy "EACCES" H eq_refl eq_refl))).
Defined.

Lemma fix_never_fails_by_flag_witness :
  isFailed fresh_state = false
  /\ run list_set one_source npm_remove_fails true [sloppy; tidy] fresh_state
     = each_all list_set one_source npm_remove_fails true [sloppy; tidy] fresh_state.
Proof.
  split; [reflexivity|].
  exact (proj2 (fix_never_fails_by_flag list_set one_source npm_remove_fails
                  [sloppy; tidy] fresh_state) eq_refl).
Defined.

End DepCheckMoreFacts.

(** ** More of the version command *)

Module VersionMoreFacts.
Import Workspaces Version VersionFacts Samples.

Section Action.

Variable Change : Type.
Variable each : option (Workspace -> Config * list Change).
Variable sync : Workspace -> Config * list Change.
Variable isDirty : Workspace -> bool.
Variable writeConfig : Workspace -> option string.
Variable writeChangelog : Workspace -> list Change -> option string.
Variable changelog : bool.

Local Abbreviation collect := (collect Change each sync).
Local Abbreviation reselect := (reselect isDirty).
Local Abbreviation write := (write Change writeConfig writeChangelog changelog).
Local Abbreviation action :=
  (action Change each sync isDirty writeConfig writeChangelog changelog).

Lemma action_after_write workspaces :
  let c1 := fst (fst (forEach collect (includeDependents None workspaces) [])) in
  let changes := snd (fst (forEach collect (includeDependents None workspaces) [])) in
  let c2 := fst (fst (forEach reselect c1 tt)) in
  let c3 := includeDependents (Some false) (includeDependencies (Some false) c2) in
  after_collect (action workspaces) = c1
  /\ after_write (action workspaces) = fst (fst (forEach (write changes) c3 [])).
Proof.
  cbn zeta. unfold Version.action.
  destruct (forEach collect (includeDependents None workspaces) [])
    as [[c1 changes] f1].
  cbn [fst snd].
  destruct (forEach reselect c1 tt) as [[c2 u] f2]. cbn [fst snd].
  destruct (forEach (write changes) _ []) as [[c4 wr] f3].
  cbn. auto.
Qed.

(** X22: on clean git trees, a workspace that the second pass visits
    and finds unmodified ends the action deselected and as the one call
    [status.set('skipped', 'no modifications')] left it: the write pass
    does not touch it.  Its status is then [skipped] with detail "no
    modifications" if it was [pending] before, and what it was if it had
    reached a terminal state.  A workspace the second pass does not
    visit is left as the first pass left it. *)
Theorem unmodified_stays_skipped (workspaces : Collection) :
  let tr := action workspaces in
  (forall w, w ∈ all (after_collect tr) ->
             is_iterated (after_collect tr) w = true -> isDirty w = false) ->
  Forall2 (fun w1 w4 =>
             if is_iterated (after_collect tr) w1 then
               cfg_isModified (config w1) = false ->
               w4 = with_isSelected false
                      (status_set skipped (Some "no modifications") w1)
               /\ (status_value (status w1) = pending ->
                   status w4 = {| status_value := skipped;
                                  status_detail := Some "no modifications" |})
               /\ (is_terminal (status_value (status w1)) = true ->
                   status w4 = status w1)
             else w4 = w1)
          (all (after_collect tr)) (all (after_write tr)).
Proof.
  intros tr. subst tr.
  destruct (action_after_write workspaces) as (T1 & T4). cbn zeta in *.
  rewrite T1, T4. clear T1 T4.
  set (c0 := includeDependents None workspaces).
  set (c1 := fst (fst (forEach collect c0 []))) in *.
  set (changes := snd (fst (forEach collect c0 []))) in *.
  destruct (forEach_visits reselect c1 tt) as (V2 & _ & _ & _). cbn zeta in *.
  set (c2 := fst (fst (forEach reselect c1 tt))) in *.
  set (c3 := includeDependents (Some false) (includeDependencies (Some false) c2)).
  destruct (forEach_visits (write changes) c3 []) as (V3 & _). cbn zeta in *.
  intros Hclean.
  assert (P3 : forall w, is_iterated c3 w = isSelected w)
    by (intros w; now apply is_iterated_plain).
  assert (S2 := reselect_pass isDirty (is_iterated c1) (all c1) (all c2) Hclean
                  (not_iterated_not_selected c1) V2).
  change (all c3) with (all c2) in V3.
  revert V3. generalize (all (fst (fst (forEach (write changes) c3 [])))).
  clear - S2 P3. induction S2 as [|w1 w2 l1 l2 H _ IH]; intros l4 V3.
  - inversion V3. constructor.
  - inversion V3 as [|? w4 ? l4' Hw Hrest]; subst. constructor; [|now apply IH].
    rewrite P3 in Hw. destruct (is_iterated c1 w1).
    + intros M. rewrite M in H. subst w2. cbn [isSelected with_isSelected] in Hw.
      subst w4. split; [reflexivity|]. cbn [status with_isSelected]. split.
      * intros Hp. now apply status_set_pending.
      * intros Ht. unfold status_set. now rewrite Ht.
    + destruct H as [-> Hs]. now rewrite Hs in Hw.
Qed.

(** X23: the strategy is applied to no private workspace and to no
    workspace that is only visited as a dependent: the first pass gives
    such a workspace the manifest [sync] returns for it and changes
    nothing else; a workspace it does not visit is left alone. *)
Theorem strategy_spares_private_and_dependents (workspaces : Collection) :
  let tr := action workspaces in
  Forall2 (fun w0 w1 =>
             if is_iterated (includeDependents None workspaces) w0 then
               isPrivate w0 = true \/ isSelected w0 = false ->
               w1 = with_config (fst (sync w0)) w0
             else w1 = w0)
          (all workspaces) (all (after_collect tr)).
Proof.
  intros tr. subst tr.
  destruct (action_after_write workspaces) as (T1 & _). cbn zeta in *.
  rewrite T1. clear T1.
  set (c0 := includeDependents None workspaces).
  destruct (forEach_visits collect c0 []) as (V1 & _). cbn zeta in *.
  change (all workspaces) with (all c0).
  induction V1 as [|w0 w1 l0 l1 H _ IH]; constructor; [|exact IH].
  destruct (is_iterated c0 w0); [|exact H].
  intros Hcase. destruct H as [a ->]. unfold Version.collect, settle.
  replace (negb (isPrivate w0) && isSelected w0) with false.
  - destruct (sync w0) as [cfg2 c2]. reflexivity.
  - destruct Hcase as [-> | ->]; [reflexivity|now rewrite andb_false_r].
Qed.

End Action.

Lemma unmodified_stays_skipped_witness :
  let tr := Version.action string (Some bump_minor) sync_ranges git_clean
              write_ok changelog_ok true three_packages in
  (forall w, w ∈ all (after_collect tr) ->
             is_iterated (after_collect tr) w = true -> git_clean w = false)
  /\ map (fun w => (name w, isSelected w, status_value (status w), status_detail (status w)))
         (all (after_write tr))
     = [("lib", true, success, Some "1.0.0 -> 1.1.0"); ("app", true, success, None);
        ("docs", false, skipped, Some "no modifications")]
  /\ Forall2 (fun w1 w4 =>
                if is_iterated (after_collect tr) w1 then
                  cfg_isModified (config w1) = false ->
                  w4 = with_isSelected false
                         (status_set skipped (Some "no modifications") w1)
                  /\ (status_value (status w1) = pending ->
                      status w4 = {| status_value := skipped;
                                     status_detail := Some "no modifications" |})
                  /\ (is_terminal (status_value (status w1)) = true ->
                      status w4 = status w1)
                else w4 = w1)
             (all (after_collect tr)) (all (after_write tr)).
Proof.
  intros tr.
  assert (H : forall w, w ∈ all (after_collect tr) ->
                        is_iterated (after_collect tr) w = true -> git_clean w = false)
    by reflexivity.
  split; [exact H|]. split; [reflexivity|].
  exact (unmodified_stays_skipped string (Some bump_minor) sync_ranges git_clean
           write_ok changelog_ok true three_packages H).
Defined.

Lemma strategy_spares_private_and_dependents_witness :
  let tr := Version.action string (Some bump_minor) sync_ranges git_clean
              write_ok changelog_ok true three_packages in
  map (fun w => (name w, cfg_version (config w))) (all (after_collect tr))
  = [("lib", Some "1.1.0"); ("app", Some "1.0.0"); ("docs", Some "1.0.0")]
  /\ Forall2 (fun w0 w1 =>
                if is_iterated (includeDependents None three_packages) w0 then
                  isPrivate w0 = true \/ isSelected w0 = false ->
                  w1 = with_config (fst (sync_ranges w0)) w0
                else w1 = w0)
             (all three_packages) (all (after_collect tr)).
Proof.
  intros tr. split; [reflexivity|].
  exact (strategy_spares_private_and_dependents string (Some bump_minor) sync_ranges
           git_clean write_ok changelog_ok true three_packages).
Defined.

End VersionMoreFacts.

(** ** The archive publisher *)

Module ArchiveFacts.
Import Js Archive.

Section Publisher.

Variable getPackBasename : string -> string -> string.
Variable resolve : string -> string -> string.
Variable access : string -> bool.
Variable publish : Workspace -> string -> Options -> completion unit.

Local Abbreviation publishFromArchive :=
  (publishFromArchive getPackBasename resolve access publish).

(** X24: publishing from an archive fails only with the error of
    [publish] itself, called on the archive [resolve] and
    [getPackBasename] name for the workspace; a workspace without
    version or without that file is passed over with a log line and no
    error, and "published" is logged only after [publish] returned. *)
Theorem publishFromArchive_errors (options : Options) (w : Workspace) :
  let archiveFilename :=
    resolve (dir w) (getPackBasename (name w) (Publish.text (version w))) in
  (forall m,
      snd (publishFromArchive options w) = Throw m
      <-> Publish.truthy (version w) = true
          /\ access archiveFilename = true
          /\ publish w archiveFilename options = Throw m)
  /\ (Publish.truthy (version w) = false ->
      publishFromArchive options w = (["workspace is unversioned"], Return tt))
  /\ (Publish.truthy (version w) = true -> access archiveFilename = false ->
      publishFromArchive options w = (["workspace has no archive"], Return tt))
  /\ (forall line, line ∈ fst (publishFromArchive options w) ->
      line <> "workspace is unversioned" -> line <> "workspace has no archive" ->
      publish w archiveFilename options = Return tt).
Proof.
  cbn zeta. unfold Archive.publishFromArchive.
  destruct (Publish.truthy (version w)); cbn [negb].
  - destruct (access _); cbn [negb].
    + destruct (publish w _ options) as [[]|m'] eqn:P; cbn [fst snd].
      * split; [|split; [|split]]; try discriminate; auto.
        intros m. split; [discriminate|]. intros (_ & _ & H). discriminate.
      * split; [|split; [|split]]; try discriminate.
        -- intros m. split; [intros H; injection H as ->; auto|].
           intros (_ & _ & H). exact H.
        -- intros line H. inversion H.
    + split; [|split; [|split]]; try discriminate; auto.
      * intros m. split; [discriminate|]. intros (_ & H & _). discriminate.
      * intros line H _ Hn. apply elem_of_cons in H as [H|H]; [contradiction|inversion H].
  - split; [|split; [|split]]; try discriminate; auto.
    + intros m. split; [discriminate|]. intros (H & _). discriminate.
    + intros line H Hn. apply elem_of_cons in H as [H|H]; [contradiction|inversion H].
Qed.

End Publisher.

Lemma publishFromArchive_errors_witness :
  let w := {| dir := "packages/a"; name := "pkg-a"; version := None |} in
  Publish.truthy (version w) = false
  /\ publishFromArchive (fun n v => String.append n v) (fun d f => String.append d f)
       (fun _ => true) (fun _ _ _ => Throw "E401")
       {| tag := None; otp := None; dryRun := false |} w
     = (["workspace is unversioned"], Return tt).
Proof.
  intros w. split; [reflexivity|].
  exact (proj1 (proj2 (publishFromArchive_errors (fun n v => String.append n v)
                         (fun d f => String.append d f) (fun _ => true)
                         (fun _ _ _ => Throw "E401")
                         {| tag := None; otp := None; dryRun := false |} w))
           eq_refl).
Defined.

End ArchiveFacts.
